(** * PinPortrait: the grid builder and the frame sampler of [sketch.js]

    A shallow embedding of the part of [src/javascript/sketch.js] that lays
    out the grid of cubes ([reset], [setupCubes]), builds the grey-level
    table ([setupColors]) and samples the webcam frame once per cycle
    ([pixelate], [getAverage]).

    Numbers.  A JavaScript number is modelled by [number]: not-a-number,
    the two infinities, or a finite value held as an exact rational
    ([Qc], canonical fractions, so that equal values are equal terms).
    The rounding of IEEE-754 doubles and the sign of zero are abstracted:
    a finite result is the exact value of the expression the source
    writes.  Reading a typed array out of range gives [undefined], which
    arithmetic turns into [NaN], as in the language.

    The arithmetic of the sampler is also written a second time on
    binary64 floats ([double_getAverage] and what follows it), to run the
    example frames with the rounding of the implementation. *)

From Stdlib Require Import ZArith QArith Qcanon Qround Lia Lqa.
From Stdlib Require Import Strings.String Init.Byte Floats.
From stdpp Require Import base option list list_numbers gmap.

#[local] Set Warnings "-inexact-float".

Local Open Scope Z_scope.

(** ** JavaScript numbers *)

Inductive number : Type :=
  | NaN : number
  | Inf (negative : bool) : number
  | Fin (q : Qc) : number.

Definition qz (z : Z) : Qc := Q2Qc (inject_Z z).
Definition qdec (n : Z) (d : positive) : Qc := Q2Qc (n # d).

Definition of_Z (z : Z) : number := Fin (qz z).

(** The decimal literal [n / d], e.g. [0.2126] is [decimal 2126 10000]. *)
Definition decimal (n : Z) (d : positive) : number := Fin (qdec n d).

Definition Qc_negative (q : Qc) : bool := Qnum (this q) <? 0.

Definition num_add (a b : number) : number :=
  match a, b with
  | NaN, _ | _, NaN => NaN
  | Inf s, Inf s' => if Bool.eqb s s' then Inf s else NaN
  | Inf s, Fin _ | Fin _, Inf s => Inf s
  | Fin p, Fin q => Fin (p + q)%Qc
  end.

Definition num_mul (a b : number) : number :=
  match a, b with
  | NaN, _ | _, NaN => NaN
  | Inf s, Inf s' => Inf (xorb s s')
  | Inf s, Fin q | Fin q, Inf s =>
      if Qc_eq_bool q 0%Qc then NaN else Inf (xorb s (Qc_negative q))
  | Fin p, Fin q => Fin (p * q)%Qc
  end.

Definition num_div (a b : number) : number :=
  match a, b with
  | NaN, _ | _, NaN => NaN
  | Inf _, Inf _ => NaN
  | Inf s, Fin q => Inf (xorb s (Qc_negative q))
  | Fin _, Inf _ => Fin 0%Qc
  | Fin p, Fin q =>
      if Qc_eq_bool q 0%Qc
      then (if Qc_eq_bool p 0%Qc then NaN else Inf (Qc_negative p))
      else Fin (p / q)%Qc
  end.

(** [a < b] on numbers: false as soon as one side is [NaN]. *)
Definition num_ltb (a b : number) : bool :=
  match a, b with
  | NaN, _ | _, NaN => false
  | Inf s, Inf s' => s && negb s'
  | Inf s, Fin _ => s
  | Fin _, Inf s => negb s
  | Fin p, Fin q => if Qclt_le_dec p q then true else false
  end.

Definition isNaN (a : number) : bool :=
  match a with NaN => true | _ => false end.

Definition isFinite (a : number) : bool :=
  match a with Fin _ => true | _ => false end.

(** [Math.round]: the nearest integer, halves going up. *)
Definition Math_round (a : number) : number :=
  match a with
  | Fin q => of_Z (Qfloor (this q + (1 # 2)))
  | _ => a
  end.

(** Equality test on numbers as values (so [NaN] equals itself here). *)
Definition num_eqb (a b : number) : bool :=
  match a, b with
  | NaN, NaN => true
  | Inf s, Inf s' => Bool.eqb s s'
  | Fin p, Fin q => Qeq_bool (this p) (this q)
  | _, _ => false
  end.

(** No infinity: the value is [NaN] or finite. *)
Definition no_Inf (a : number) : Prop :=
  match a with Inf _ => False | _ => True end.

(** ** The pixel buffer

    [ImageData.data] is a [Uint8ClampedArray]: bytes, and [undefined] when
    the index is not one of its positions. *)

Definition byte_val (b : byte) : Z := Z.of_N (Byte.to_N b).

Definition typed_get (pixels : list byte) (index : Z) : option byte :=
  if index <? 0 then None else pixels !! Z.to_nat index.

(** The value an arithmetic operand takes: [undefined] becomes [NaN]. *)
Definition to_number (v : option byte) : number :=
  match v with
  | Some b => of_Z (byte_val b)
  | None => NaN
  end.

(** ** Colours, cubes and the global state *)

Record Color : Type := rgb { red : Z; green : Z; blue : Z }.

(** A mesh, with the fields the sketch reads or writes: [position.x],
    [position.y], [position.z], [scale.z] and [material.color]
    ([undefined] when the table has no entry). *)
Record Cube : Type := mkCube {
  position_x : Z;
  position_y : Z;
  position_z : number;
  scale_z : number;
  material_color : option Color
}.

(** The 2D canvas: the fill style of its context and its RGBA bitmap.
    [reset] gives the canvas the width and height [w] and [h], which are
    the only dimensions it ever has. *)
Record Canvas : Type := mkCanvas {
  fillStyle : string;
  bitmap : list byte
}.

(** The global variables of the sketch.  The scene, the camera and the
    renderer hold no value the grid builder or the sampler reads. *)
Record State : Type := mkState {
  w : Z;
  h : Z;
  nrOfCubesX : number;
  nrOfCubesY : number;
  colors : gmap Z Color;
  cubes : list Cube;
  ctx : Canvas
}.

(** [colors.get (c)]: the keys of the table are integers. *)
Definition colors_get (m : gmap Z Color) (c : number) : option Color :=
  match c with
  | Fin q => if (Z.pos (Qden (this q)) =? 1) then m !! Qnum (this q) else None
  | _ => None
  end.

(** [setupColors]: the grey [rgb(i, i, i)] under each key [0 <= i < 256]. *)
Definition setupColors : gmap Z Color :=
  foldl (fun m i => <[ i := rgb i i i ]> m) ∅ (seqZ 0 256).

(** ** [setupCubes] *)

(** The values [x] takes in [for (let x = 0; x < bound; x++)];
    [None] when the loop never leaves (the bound is [+Infinity]). *)
Definition count_up (bound : number) : option (list Z) :=
  match bound with
  | NaN => Some []
  | Inf true => Some []
  | Inf false => None
  | Fin q => Some (seqZ 0 (Qceiling (this q)))
  end.

(** A mesh as [setupCubes] makes it: at [(x, y, 0)], of scale 1, grey. *)
Definition new_cube (x y : Z) : Cube :=
  {| position_x := x;
     position_y := y;
     position_z := of_Z 0;
     scale_z := of_Z 1;
     material_color := Some (rgb 128 128 128) |}.

(** The two nested loops, [x] outside and [y] inside. *)
Definition setupCubes_list (nx ny : number) : option (list Cube) :=
  xs ← count_up nx;
  match xs with
  | [] => Some []
  | _ :: _ =>
      ys ← count_up ny;
      Some (x ← xs; y ← ys; [new_cube x y])
  end.

Definition setupCubes (st : State) : option State :=
  cs ← setupCubes_list (nrOfCubesX st) (nrOfCubesY st);
  Some {| w := w st; h := h st;
          nrOfCubesX := nrOfCubesX st; nrOfCubesY := nrOfCubesY st;
          colors := colors st; cubes := cs; ctx := ctx st |}.

(** ** The 2D canvas *)

Definition blank_canvas (width height : Z) : Canvas :=
  {| fillStyle := "#000000";
     bitmap := replicate (Z.to_nat (width * height * 4)) x00 |}.

(** [ctx.getImageData (0, 0, w, h)]: a copy of the whole bitmap; the call
    throws ([None]) when the width or the height is zero. *)
Definition getImageData (st : State) : option (list byte) :=
  if (w st =? 0) || (h st =? 0) then None else Some (bitmap (ctx st)).

(** The RGBA bytes of the CSS colours the sketch names. *)
Definition css_rgba (style : string) : list byte :=
  if String.eqb style "red" then [xff; x00; x00; xff] else [x00; x00; x00; xff].

(** The byte at position [i] of a bitmap [width] pixels wide belongs to
    a pixel of the rectangle of origin [(x0, y0)], [rw] wide, [rh] high. *)
Definition in_rect (x0 y0 rw rh : Z) (width : Z) (i : nat) : bool :=
  let p := Z.of_nat i / 4 in
  let x := p mod width in
  let y := p / width in
  (x0 <=? x) && (x <? x0 + rw) && (y0 <=? y) && (y <? y0 + rh).

(** [ctx.fillRect (x0, y0, rw, rh)] with an opaque fill style: the
    pixels of the rectangle take the colour. *)
Definition fillRect (x0 y0 rw rh : Z) (width : Z) (c : Canvas) : Canvas :=
  {| fillStyle := fillStyle c;
     bitmap :=
       imap (fun i old =>
               if in_rect x0 y0 rw rh width i
               then default old (css_rgba (fillStyle c) !! (i mod 4)%nat)
               else old)
            (bitmap c) |}.

Definition set_fillStyle (style : string) (c : Canvas) : Canvas :=
  {| fillStyle := style; bitmap := bitmap c |}.

(** ** [getAverage], one turn of its loops *)

(** The three accumulators [r], [g], [b]. *)
Definition sums : Type := number * number * number.

(** The body of the inner loop at column [x] and row [y]. *)
Definition getAverage_body (width : Z) (pixels : list byte)
    (x : Z) (acc : sums) (y : Z) : sums :=
  let '(r, g, b) := acc in
  let index := (x + width * y) * 4 in
  (num_add r (to_number (typed_get pixels index)),
   num_add g (to_number (typed_get pixels (index + 1))),
   num_add b (to_number (typed_get pixels (index + 2)))).

Section Sketch.

(** [const size = 8] in the source; the README presents it as the value
    to adjust, so the functions that read it take it as a parameter. *)
Variable size : Z.

(** *** [reset] *)

(** [video.videoWidth] and [video.videoHeight] are the arguments.
    Assigning [canvas.width] clears the bitmap and the context state. *)
Definition reset (videoWidth videoHeight : Z) (st : State) : State :=
  {| w := videoWidth;
     h := videoHeight;
     nrOfCubesX := num_div (of_Z videoWidth) (of_Z size);
     nrOfCubesY := num_div (of_Z videoHeight) (of_Z size);
     colors := colors st;
     cubes := cubes st;
     ctx := blank_canvas videoWidth videoHeight |}.

(** *** [getAverage] *)

Definition getAverage_sums (width : Z) (pixels : list byte)
    (x0 y0 : Z) : sums :=
  foldl (fun acc x => foldl (getAverage_body width pixels x) acc (seqZ y0 size))
        (of_Z 0, of_Z 0, of_Z 0) (seqZ x0 size).

(** The value [val] before the [isNaN] test. *)
Definition luminance (acc : sums) : number :=
  let '(r, g, b) := acc in
  num_div
    (num_add (num_add (num_mul (decimal 2126 10000) r)
                      (num_mul (decimal 7152 10000) g))
             (num_mul (decimal 722 10000) b))
    (num_mul (of_Z size) (of_Z size)).

Definition getAverage (width : Z) (pixels : list byte) (x0 y0 : Z) : number :=
  let val := luminance (getAverage_sums width pixels x0 y0) in
  if isNaN val then of_Z 1 else val.

(** *** [pixelate] *)

(** The callback given to [cubes.forEach]. *)
Definition pixelate_cube (width height : Z) (table : gmap Z Color)
    (pixels : list byte) (cube : Cube) : Cube :=
  let x := position_x cube in
  let y := position_y cube in
  let col := getAverage width pixels (width - x * size) (height - y * size) in
  let c := Math_round col in
  let z := num_add (num_div col (of_Z 10)) (decimal 1 100) in
  {| position_x := x;
     position_y := y;
     position_z := num_div z (of_Z 2);
     scale_z := z;
     material_color := colors_get table c |}.

(** The snapshot is taken first, then the debugging rectangle is painted
    on the canvas, then each cube is updated from the snapshot. *)
Definition pixelate (st : State) : option State :=
  pixels ← getImageData st;
  let canvas' := fillRect 0 0 50 50 (w st) (set_fillStyle "red" (ctx st)) in
  Some {| w := w st; h := h st;
          nrOfCubesX := nrOfCubesX st; nrOfCubesY := nrOfCubesY st;
          colors := colors st;
          cubes := pixelate_cube (w st) (h st) (colors st) pixels <$> cubes st;
          ctx := canvas' |}.

End Sketch.

(** The state before the camera is ready, with the colour table in place. *)
Definition initial_state : State :=
  {| w := 0; h := 0; nrOfCubesX := NaN; nrOfCubesY := NaN;
     colors := setupColors; cubes := []; ctx := blank_canvas 0 0 |}.

(** ** The sampler on binary64 floats

    [getAverage] and the two lines of [pixelate] that derive the height
    and the depth, with the doubles of the implementation. *)

Definition double_of_value (v : option byte) : float :=
  match v with
  | Some b => PrimFloat.of_uint63 (Uint63.of_Z (byte_val b))
  | None => PrimFloat.nan
  end.

Definition double_getAverage_body (width : Z) (pixels : list byte)
    (x : Z) (acc : float * float * float) (y : Z) : float * float * float :=
  let '(r, g, b) := acc in
  let index := (x + width * y) * 4 in
  ((r + double_of_value (typed_get pixels index))%float,
   (g + double_of_value (typed_get pixels (index + 1)))%float,
   (b + double_of_value (typed_get pixels (index + 2)))%float).

Definition double_getAverage (size : Z) (width : Z) (pixels : list byte)
    (x0 y0 : Z) : float :=
  let '(r, g, b) :=
    foldl (fun acc x =>
             foldl (double_getAverage_body width pixels x) acc (seqZ y0 size))
          (0%float, 0%float, 0%float) (seqZ x0 size) in
  let s := PrimFloat.of_uint63 (Uint63.of_Z size) in
  let val := ((0.2126 * r + 0.7152 * g + 0.0722 * b) / (s * s))%float in
  if PrimFloat.is_nan val then 1%float else val.

Definition double_height (col : float) : float := (col / 10 + 0.01)%float.
Definition double_depth (z : float) : float := (z / 2)%float.

(** ** Sampling windows *)

(** The pixel [(x, y)] is one that [pixelate] makes [getAverage] visit for
    [cube]: the two loops run from the origin
    [(w - x * size, h - y * size)] over [size] columns and rows. *)
Definition sampled_window (size W H : Z) (cube : Cube) (x y : Z) : Prop :=
  W - position_x cube * size <= x < W - position_x cube * size + size /\
  H - position_y cube * size <= y < H - position_y cube * size + size.

Definition in_frame (W H x y : Z) : Prop := 0 <= x < W /\ 0 <= y < H.

Definition window_in_frame (size W H : Z) (cube : Cube) : Prop :=
  forall x y, sampled_window size W H cube x y -> in_frame W H x y.

(** The three channels of the pixel [(x, y)] are positions of the buffer. *)
Definition readable (width : Z) (pixels : list byte) (x y : Z) : Prop :=
  0 <= (x + width * y) * 4 /\ (x + width * y) * 4 + 2 < Z.of_nat (length pixels).

Definition sums_no_Inf (acc : sums) : Prop :=
  no_Inf acc.1.1 /\ no_Inf acc.1.2 /\ no_Inf acc.2.

(** The quotient rounded up, on integers. *)
Definition ceil_div (a b : Z) : Z := - ((- a) / b).

(** ** The sums and the luminance as the specification words them *)

(** The byte at a linear index of the buffer, as an integer. *)
Definition channel (pixels : list byte) (index : Z) : Z :=
  match typed_get pixels index with
  | Some b => byte_val b
  | None => 0
  end.

Definition sumZ (f : Z -> Z) (l : list Z) : Z :=
  foldr (fun x acc => f x + acc) 0 l.

(** The sum of channel [k] (0 red, 1 green, 2 blue) over the [size] by
    [size] window of origin [(x0, y0)], each pixel read at the linear
    index [(x + W * y) * 4]. *)
Definition channel_sum (size W : Z) (pixels : list byte) (x0 y0 k : Z) : Z :=
  sumZ (fun x => sumZ (fun y => channel pixels ((x + W * y) * 4 + k))
                      (seqZ y0 size))
       (seqZ x0 size).

(** [L = (0.2126 R + 0.7152 G + 0.0722 B) / (size * size)]. *)
Definition spec_luminance (size R G B : Z) : Qc :=
  ((qdec 2126 10000 * qz R + qdec 7152 10000 * qz G + qdec 722 10000 * qz B)
   / (qz size * qz size))%Qc.

(** [round (L)], [L / 10 + 0.01] and half of it. *)
Definition spec_colorIndex (L : Qc) : Z := Qfloor (this L + (1 # 2)).
Definition spec_heightValue (L : Qc) : Qc := (L / qz 10 + qdec 1 100)%Qc.
Definition spec_depthOffset (L : Qc) : Qc := (spec_heightValue L / qz 2)%Qc.

(** The cube after a sample of luminance [L]: the grid coordinates as
    they were, and the three attributes the specification derives. *)
Definition sampled (table : gmap Z Color) (L : Qc) (cube : Cube) : Cube :=
  {| position_x := position_x cube;
     position_y := position_y cube;
     position_z := Fin (spec_depthOffset L);
     scale_z := Fin (spec_heightValue L);
     material_color := table !! spec_colorIndex L |}.

(** ** Frames to run the sketch on

    A canvas of 16 by 16 pixels holding a white frame, with the four
    cubes that [setupCubes] makes for it when [size] is 8, and the state
    one pass of [pixelate] leaves. *)

Definition white_frame : list byte := replicate 1024 xff.
Definition black_frame : list byte := replicate 1024 x00.

(** The grid [setupCubes] makes after [reset 8 16 16]. *)
Definition example_grid : State :=
  {| w := 16; h := 16;
     nrOfCubesX := num_div (of_Z 16) (of_Z 8);
     nrOfCubesY := num_div (of_Z 16) (of_Z 8);
     colors := setupColors;
     cubes := [new_cube 0 0; new_cube 0 1; new_cube 1 0; new_cube 1 1];
     ctx := blank_canvas 16 16 |}.

(** The same once [draw] has put the white frame on the canvas. *)
Definition example_state : State :=
  {| w := 16; h := 16;
     nrOfCubesX := num_div (of_Z 16) (of_Z 8);
     nrOfCubesY := num_div (of_Z 16) (of_Z 8);
     colors := setupColors;
     cubes := [new_cube 0 0; new_cube 0 1; new_cube 1 0; new_cube 1 1];
     ctx := {| fillStyle := "#000000"; bitmap := white_frame |} |}.

Definition example_state_after : State :=
  {| w := 16; h := 16;
     nrOfCubesX := num_div (of_Z 16) (of_Z 8);
     nrOfCubesY := num_div (of_Z 16) (of_Z 8);
     colors := setupColors;
     cubes := pixelate_cube 8 16 16 setupColors white_frame
                <$> [new_cube 0 0; new_cube 0 1; new_cube 1 0; new_cube 1 1];
     ctx := fillRect 0 0 50 50 16
              {| fillStyle := "red"; bitmap := white_frame |} |}.

(** A frame of 24 by 24 pixels, black in its upper half and white in
    its lower half. *)
Definition half_frame : list byte := replicate 1152 x00 ++ replicate 1152 xff.

(** ** [draw] and the cycles *)





(** ** [setupCamera] *)




(** ** The second script of [index.html]

    Its [setupCubes] starts the outer loop at [x = 1] and its [pixelate]
    takes the horizontal origin [x * size]; the rest is as in [sketch.js]
    (without the debugging rectangle). *)

Module Variant.

(** The values [x] takes in [for (let x = 1; x < bound; x++)]. *)
Definition count_up_from_1 (bound : number) : option (list Z) :=
  match bound with
  | NaN => Some []
  | Inf true => Some []
  | Inf false => None
  | Fin q => Some (seqZ 1 (Qceiling (this q) - 1))
  end.

Definition setupCubes_list (nx ny : number) : option (list Cube) :=
  xs ← count_up_from_1 nx;
  match xs with
  | [] => Some []
  | _ :: _ =>
      ys ← count_up ny;
      Some (x ← xs; y ← ys; [new_cube x y])
  end.

Definition setupCubes (st : State) : option State :=
  cs ← setupCubes_list (nrOfCubesX st) (nrOfCubesY st);
  Some {| w := w st; h := h st;
          nrOfCubesX := nrOfCubesX st; nrOfCubesY := nrOfCubesY st;
          colors := colors st; cubes := cs; ctx := ctx st |}.

Definition pixelate_cube (size : Z) (width height : Z) (table : gmap Z Color)
    (pixels : list byte) (cube : Cube) : Cube :=
  let x := position_x cube in
  let y := position_y cube in
  let col := getAverage size width pixels (x * size) (height - y * size) in
  let c := Math_round col in
  let z := num_add (num_div col (of_Z 10)) (decimal 1 100) in
  {| position_x := x;
     position_y := y;
     position_z := num_div z (of_Z 2);
     scale_z := z;
     material_color := colors_get table c |}.

Definition pixelate (size : Z) (st : State) : option State :=
  pixels ← getImageData st;
  Some {| w := w st; h := h st;
          nrOfCubesX := nrOfCubesX st; nrOfCubesY := nrOfCubesY st;
          colors := colors st;
          cubes := pixelate_cube size (w st) (h st) (colors st) pixels <$> cubes st;
          ctx := ctx st |}.

(** The window of a cube in this script. *)
Definition sampled_window (size W H : Z) (cube : Cube) (x y : Z) : Prop :=
  position_x cube * size <= x < position_x cube * size + size /\
  H - position_y cube * size <= y < H - position_y cube * size + size.

End Variant.

(** ** Bounds on the accumulators *)



(** The grid coordinates of a cube. *)
Definition grid_xy (cube : Cube) : Z * Z := (position_x cube, position_y cube).

(** ** Facts on numbers *)

Lemma this_Q2Qc (q : Q) : (this (Q2Qc q) == q)%Q.
Proof. apply Qred_correct. Qed.

Lemma this_qz (z : Z) : this (qz z) = inject_Z z.
Proof. unfold qz. cbn [this Q2Qc]. apply Qred_identity, Z.gcd_1_r. Qed.

Lemma this_qdec (n : Z) (d : positive) : (this (qdec n d) == n # d)%Q.
Proof. apply this_Q2Qc. Qed.

Lemma this_Qcplus (a b : Qc) : (this (a + b)%Qc == this a + this b)%Q.
Proof. apply this_Q2Qc. Qed.

Lemma this_Qcmult (a b : Qc) : (this (a * b)%Qc == this a * this b)%Q.
Proof. apply this_Q2Qc. Qed.

Lemma this_Qcdiv (a b : Qc) : (this (a / b)%Qc == this a / this b)%Q.
Proof.
  unfold Qcdiv, Qcinv. rewrite this_Qcmult. unfold Qdiv.
  apply Qmult_comp; [reflexivity|apply this_Q2Qc].
Qed.

(** From an equation of canonical rationals to one of fractions. *)
Ltac push_this :=
  unfold spec_depthOffset, spec_heightValue, spec_luminance;
  repeat (first [ rewrite this_Qcdiv | rewrite this_Qcmult
                | rewrite this_Qcplus | rewrite this_qz | rewrite this_qdec ]).

Ltac qc_to_q := apply Qc_is_canon; push_this.

Lemma Qc_eq_bool_neq (p q : Qc) : p <> q -> Qc_eq_bool p q = false.
Proof. unfold Qc_eq_bool. by destruct (Qcanon.Qc_eq_dec p q). Qed.

Lemma qz_inj (a b : Z) : qz a = qz b -> a = b.
Proof.
  intros E. apply (f_equal this) in E. rewrite !this_qz in E.
  by injection E.
Qed.

Lemma qz_neq_0 (z : Z) : z <> 0 -> qz z <> 0%Qc.
Proof. intros Hz E. by apply (qz_inj z 0) in E. Qed.

Lemma qz_mul (a b : Z) : (qz a * qz b)%Qc = qz (a * b).
Proof. qc_to_q. by rewrite inject_Z_mult. Qed.

Lemma num_eqb_eq (a b : number) : num_eqb a b = true <-> a = b.
Proof.
  destruct a as [|s|p], b as [|s'|q]; simpl; try (split; [done|congruence]); try done.
  - rewrite eqb_true_iff. split; congruence.
  - rewrite Qeq_bool_iff. split; [intros E; f_equal; by apply Qc_is_canon|].
    intros [= ->]. reflexivity.
Qed.

Lemma num_add_of_Z (a b : Z) : num_add (of_Z a) (of_Z b) = of_Z (a + b).
Proof.
  unfold of_Z, num_add. f_equal. qc_to_q. by rewrite inject_Z_plus.
Qed.

Lemma num_div_Fin (p : Qc) (z : Z) :
  z <> 0 -> num_div (Fin p) (of_Z z) = Fin (p / qz z)%Qc.
Proof.
  intros Hz. unfold num_div, of_Z.
  by rewrite Qc_eq_bool_neq by by apply qz_neq_0.
Qed.

Lemma num_div_of_Z (a b : Z) :
  b <> 0 -> num_div (of_Z a) (of_Z b) = Fin (qz a / qz b)%Qc.
Proof. intros Hb. by apply num_div_Fin. Qed.

Lemma num_div_exact (a b : Z) :
  0 < b -> (b | a) -> num_div (of_Z a) (of_Z b) = of_Z (a / b).
Proof.
  intros Hb [k ->]. rewrite num_div_of_Z by lia.
  rewrite Z.div_mul by lia. unfold of_Z. f_equal.
  qc_to_q. rewrite inject_Z_mult. field.
  intros E. unfold Qeq in E. simpl in E. lia.
Qed.

Lemma colors_get_of_Z (table : gmap Z Color) (n : Z) :
  colors_get table (of_Z n) = table !! n.
Proof. unfold colors_get, of_Z. by rewrite this_qz. Qed.

(** ** Rounding up *)

Lemma Qceiling_quotient (a b : Z) : Qceiling (this (qz a / qz b)%Qc) = ceil_div a b.
Proof.
  rewrite this_Qcdiv, !this_qz. unfold Qceiling, ceil_div. f_equal.
  rewrite Zdiv_Qdiv. apply Qfloor_comp.
  rewrite inject_Z_opp. unfold Qdiv. ring.
Qed.

Lemma ceil_div_lt (a b x : Z) : 0 < b -> (x < ceil_div a b <-> x * b < a).
Proof.
  intros Hb. unfold ceil_div.
  pose proof (Z.div_mod (- a) b ltac:(lia)) as E.
  pose proof (Z.mod_pos_bound (- a) b Hb) as M.
  split; intros Hx; nia.
Qed.

Lemma ceil_div_exact (a b : Z) : 0 < b -> (b | a) -> ceil_div a b = a / b.
Proof.
  intros Hb [k ->]. unfold ceil_div.
  rewrite <- Z.mul_opp_l, !Z.div_mul by lia. lia.
Qed.

Lemma Qceiling_above (q : Q) (x : Z) : x < Qceiling q <-> (inject_Z x < q)%Q.
Proof.
  split; intros Hx.
  - apply Qle_lt_trans with (inject_Z (Qceiling q - 1)); [|apply Qceiling_lt].
    rewrite <- Zle_Qle. lia.
  - rewrite Zlt_Qlt. eapply Qlt_le_trans; [exact Hx|apply Qle_ceiling].
Qed.

(** ** The loops of the grid builder *)

(** [count_up] lists the integers that pass the test [x < bound] of the
    loop, counting from 0. *)
Lemma count_up_Some (bound : number) (xs : list Z) (x : Z) :
  count_up bound = Some xs ->
  x ∈ xs <-> 0 <= x /\ num_ltb (of_Z x) bound = true.
Proof.
  destruct bound as [|[|]|q]; intros [= <-]; cbn [num_ltb of_Z negb].
  - rewrite elem_of_nil. intuition discriminate.
  - rewrite elem_of_nil. intuition discriminate.
  - rewrite elem_of_seqZ, Z.add_0_l, Qceiling_above, <- this_qz.
    destruct (Qclt_le_dec (qz x) q) as [Hlt|Hle].
    + unfold Qclt in Hlt. tauto.
    + apply Qcle_not_lt in Hle. unfold Qclt in Hle. intuition discriminate.
Qed.

(** It has no value when the test never fails. *)
Lemma count_up_None (bound : number) (x : Z) :
  count_up bound = None -> num_ltb (of_Z x) bound = true.
Proof. by destruct bound as [|[|]|q]. Qed.

Lemma count_up_quotient (a b : Z) :
  b <> 0 ->
  count_up (num_div (of_Z a) (of_Z b)) = Some (seqZ 0 (ceil_div a b)).
Proof.
  intros Hb. rewrite num_div_of_Z by done. unfold count_up.
  by rewrite Qceiling_quotient.
Qed.

Lemma length_row {A} (g : Z -> A) (ys : list Z) :
  length (y ← ys; [g y]) = length ys.
Proof.
  induction ys as [|y ys IH]; [done|].
  rewrite bind_cons. simpl. by rewrite IH.
Qed.

Lemma length_grid {A} (f : Z -> Z -> A) (xs ys : list Z) :
  length (x ← xs; y ← ys; [f x y]) = (length xs * length ys)%nat.
Proof.
  induction xs as [|x xs IH]; [done|].
  rewrite bind_cons, length_app, IH, length_row. simpl. lia.
Qed.

Lemma elem_of_grid {A} (f : Z -> Z -> A) (xs ys : list Z) (c : A) :
  c ∈ (x ← xs; y ← ys; [f x y]) <-> exists x y, x ∈ xs /\ y ∈ ys /\ c = f x y.
Proof.
  rewrite list_elem_of_bind. split.
  - intros (x & Hc & Hx). apply list_elem_of_bind in Hc as (y & Hc & Hy).
    apply list_elem_of_singleton in Hc. eauto.
  - intros (x & y & Hx & Hy & ->). exists x. split; [|done].
    apply list_elem_of_bind. exists y. split; [|done].
    by apply list_elem_of_singleton.
Qed.

Lemma setupCubes_list_quotient (size W H : Z) :
  1 <= size -> 0 <= W -> 0 <= H ->
  setupCubes_list (num_div (of_Z W) (of_Z size)) (num_div (of_Z H) (of_Z size))
  = Some (x ← seqZ 0 (ceil_div W size); y ← seqZ 0 (ceil_div H size); [new_cube x y]).
Proof.
  intros Hs HW HH. unfold setupCubes_list.
  rewrite !count_up_quotient by lia. simpl.
  destruct (seqZ 0 (ceil_div W size)); done.
Qed.

Lemma setupCubes_reset (size W H : Z) (st : State) :
  1 <= size -> 0 <= W -> 0 <= H ->
  exists st2,
    setupCubes (reset size W H st) = Some st2 /\
    w st2 = W /\ h st2 = H /\ colors st2 = colors st /\
    cubes st2 =
      (x ← seqZ 0 (ceil_div W size); y ← seqZ 0 (ceil_div H size); [new_cube x y]).
Proof.
  intros Hs HW HH. unfold setupCubes, reset.
  cbn [nrOfCubesX nrOfCubesY w h colors cubes ctx].
  rewrite setupCubes_list_quotient by done. simpl. eauto 10.
Qed.

(** The cubes of the grid: one for each [x] and [y] with
    [0 <= x], [x * size < W], [0 <= y], [y * size < H]. *)
Lemma elem_of_setupCubes (size W H : Z) (st st2 : State) (cube : Cube) :
  1 <= size -> 0 <= W -> 0 <= H ->
  setupCubes (reset size W H st) = Some st2 ->
  cube ∈ cubes st2 <->
  exists x y, cube = new_cube x y /\
              0 <= x /\ x * size < W /\ 0 <= y /\ y * size < H.
Proof.
  intros Hs HW HH E.
  destruct (setupCubes_reset size W H st) as (st2' & E' & _ & _ & _ & Hc); try done.
  assert (st2' = st2) as -> by congruence.
  rewrite Hc, elem_of_grid. setoid_rewrite elem_of_seqZ.
  split.
  - intros (x & y & Hx & Hy & ->). exists x, y.
    pose proof (ceil_div_lt W size x ltac:(lia)).
    pose proof (ceil_div_lt H size y ltac:(lia)). intuition lia.
  - intros (x & y & -> & Hx0 & Hx & Hy0 & Hy). exists x, y.
    pose proof (ceil_div_lt W size x ltac:(lia)).
    pose proof (ceil_div_lt H size y ltac:(lia)). intuition lia.
Qed.

(** A window is inside the frame exactly when the cube is neither in
    column 0 nor in row 0 (and not beyond the frame on the other side). *)
Lemma window_in_frame_iff (size W H : Z) (cube : Cube) :
  1 <= size ->
  window_in_frame size W H cube <->
  (size <= position_x cube * size <= W /\ size <= position_y cube * size <= H).
Proof.
  intros Hs. unfold window_in_frame, sampled_window, in_frame. split.
  - intros Hin.
    pose proof (Hin (W - position_x cube * size) (H - position_y cube * size)
                  ltac:(lia)).
    pose proof (Hin (W - position_x cube * size + size - 1)
                    (H - position_y cube * size + size - 1) ltac:(lia)).
    lia.
  - intros Hc x y Hxy. lia.
Qed.

(** C1, at the frame of 64 by 48 pixels with [size = 8]: the first cube
    that [setupCubes] creates has the grid coordinates [(0, 0)], and the
    window [pixelate] samples for it starts at the pixel [(64, 48)]; it
    is not inside the frame. *)
Theorem first_cube_window_outside_frame :
  exists st, setupCubes (reset 8 64 48 initial_state) = Some st /\
             cubes st !! 0%nat = Some (new_cube 0 0) /\
             sampled_window 8 64 48 (new_cube 0 0) 64 48 /\
             ~ window_in_frame 8 64 48 (new_cube 0 0).
Proof.
  destruct (setupCubes_reset 8 64 48 initial_state) as (st & E & _ & _ & _ & Hc);
    try lia.
  exists st. split; [exact E|]. split; [by rewrite Hc|].
  split; [unfold sampled_window; simpl; lia|].
  rewrite window_in_frame_iff by lia. simpl. lia.
Qed.

(** Every cube of the first column or the first row is in that case,
    whatever the frame. *)
Lemma first_row_column_outside_frame (size W H : Z) (st st2 : State) (cube : Cube) :
  1 <= size -> 0 <= W -> 0 <= H ->
  setupCubes (reset size W H st) = Some st2 ->
  cube ∈ cubes st2 ->
  window_in_frame size W H cube <-> 1 <= position_x cube /\ 1 <= position_y cube.
Proof.
  intros Hs HW HH E Hin.
  apply (elem_of_setupCubes size W H st st2 cube) in Hin as (x & y & -> & ?); try done.
  rewrite window_in_frame_iff by done. simpl. split; [nia|nia].
Qed.

(** C2, as the code has it: [reset] keeps the exact quotients [W / size]
    and [H / size] (no rounding down), [setupCubes] creates
    [ceil (W / size) * ceil (H / size)] cubes, and when [size] divides [W]
    and [H] these are [floor (W / size)], [floor (H / size)] and their
    product. *)
Theorem grid_builder_dimensions (size W H : Z) (st : State) :
  1 <= size -> 1 <= W -> 1 <= H ->
  nrOfCubesX (reset size W H st) = Fin (qz W / qz size)%Qc /\
  nrOfCubesY (reset size W H st) = Fin (qz H / qz size)%Qc /\
  exists st2,
    setupCubes (reset size W H st) = Some st2 /\
    Z.of_nat (length (cubes st2)) = ceil_div W size * ceil_div H size /\
    ((size | W) -> (size | H) ->
     nrOfCubesX (reset size W H st) = of_Z (W / size) /\
     nrOfCubesY (reset size W H st) = of_Z (H / size) /\
     Z.of_nat (length (cubes st2)) = (W / size) * (H / size)).
Proof.
  intros Hs HW HH. cbn [reset nrOfCubesX nrOfCubesY].
  split; [apply num_div_of_Z; lia|]. split; [apply num_div_of_Z; lia|].
  destruct (setupCubes_reset size W H st) as (st2 & E & _ & _ & _ & Hc); try lia.
  exists st2. split; [exact E|].
  assert (Z.of_nat (length (cubes st2)) = ceil_div W size * ceil_div H size) as L.
  { rewrite Hc, length_grid, !length_seqZ, Nat2Z.inj_mul.
    pose proof (ceil_div_lt W size 0 ltac:(lia)).
    pose proof (ceil_div_lt H size 0 ltac:(lia)).
    rewrite !Z2Nat.id by lia. reflexivity. }
  split; [exact L|].
  intros DW DH. rewrite L, !ceil_div_exact by (done || lia).
  by rewrite !num_div_exact by (done || lia).
Qed.

Lemma grid_builder_dimensions_witness :
  nrOfCubesX (reset 8 64 48 initial_state) = Fin (qz 64 / qz 8)%Qc /\
  nrOfCubesY (reset 8 64 48 initial_state) = Fin (qz 48 / qz 8)%Qc /\
  exists st2,
    setupCubes (reset 8 64 48 initial_state) = Some st2 /\
    Z.of_nat (length (cubes st2)) = ceil_div 64 8 * ceil_div 48 8 /\
    ((8 | 64) -> (8 | 48) ->
     nrOfCubesX (reset 8 64 48 initial_state) = of_Z (64 / 8) /\
     nrOfCubesY (reset 8 64 48 initial_state) = of_Z (48 / 8) /\
     Z.of_nat (length (cubes st2)) = (64 / 8) * (48 / 8)).
Proof. apply (grid_builder_dimensions 8 64 48 initial_state); lia. Defined.

(** C2 as stated fails for a frame 12 pixels wide and 8 high with
    [size = 8]: the column count kept is 1.5, not [floor (12 / 8) = 1],
    and two cubes are created, not [1 * 1]. *)
Lemma grid_builder_floor_counterexample :
  nrOfCubesX (reset 8 12 8 initial_state) = decimal 15 10 /\
  nrOfCubesX (reset 8 12 8 initial_state) <> of_Z (12 / 8) /\
  exists st2, setupCubes (reset 8 12 8 initial_state) = Some st2 /\
              length (cubes st2) = 2%nat /\
              Z.of_nat (length (cubes st2)) <> (12 / 8) * (8 / 8).
Proof.
  split; [apply num_eqb_eq; vm_compute; reflexivity|].
  split; [intros E; apply num_eqb_eq in E; vm_compute in E; discriminate|].
  destruct (setupCubes_reset 8 12 8 initial_state) as (st2 & E & _ & _ & _ & Hc);
    try lia.
  exists st2. split; [exact E|]. rewrite Hc. split; [reflexivity|].
  vm_compute. discriminate.
Qed.

(** ** The frame sampler *)

Lemma typed_get_in_range (pixels : list byte) (index : Z) :
  0 <= index < Z.of_nat (length pixels) ->
  to_number (typed_get pixels index) = of_Z (channel pixels index).
Proof.
  intros Hi. unfold channel, typed_get.
  destruct (Z.ltb_spec index 0); [lia|].
  destruct (lookup_lt_is_Some_2 pixels (Z.to_nat index) ltac:(lia)) as [b ->].
  reflexivity.
Qed.

Lemma typed_get_out_of_range (pixels : list byte) (index : Z) :
  Z.of_nat (length pixels) <= index -> typed_get pixels index = None.
Proof.
  intros Hi. unfold typed_get.
  destruct (Z.ltb_spec index 0); [done|].
  apply lookup_ge_None_2. lia.
Qed.

Lemma sumZ_cons (f : Z -> Z) (x : Z) (l : list Z) :
  sumZ f (x :: l) = f x + sumZ f l.
Proof. reflexivity. Qed.

Lemma of_Z_triple (a a' b b' c c' : Z) :
  a = a' -> b = b' -> c = c' ->
  (of_Z a, of_Z b, of_Z c) = (of_Z a', of_Z b', of_Z c').
Proof. congruence. Qed.

Section Sums.

Variables (size width : Z) (pixels : list byte).

Lemma inner_loop_readable (x : Z) (ys : list Z) (r g b : Z) :
  (forall y, y ∈ ys -> readable width pixels x y) ->
  foldl (getAverage_body width pixels x) (of_Z r, of_Z g, of_Z b) ys =
  (of_Z (r + sumZ (fun y => channel pixels ((x + width * y) * 4 + 0)) ys),
   of_Z (g + sumZ (fun y => channel pixels ((x + width * y) * 4 + 1)) ys),
   of_Z (b + sumZ (fun y => channel pixels ((x + width * y) * 4 + 2)) ys)).
Proof.
  revert r g b. induction ys as [|y ys IH]; intros r g b Hr.
  - simpl. by rewrite !Z.add_0_r.
  - destruct (Hr y ltac:(left)) as [H0 H2].
    cbn [foldl]. unfold getAverage_body at 2.
    rewrite !typed_get_in_range, !num_add_of_Z by lia.
    rewrite IH by (intros; apply Hr; by right).
    rewrite !sumZ_cons, !Z.add_0_r.
    apply of_Z_triple; lia.
Qed.

Lemma outer_loop_readable (xs ys : list Z) (r g b : Z) :
  (forall x y, x ∈ xs -> y ∈ ys -> readable width pixels x y) ->
  foldl (fun acc x => foldl (getAverage_body width pixels x) acc ys)
        (of_Z r, of_Z g, of_Z b) xs =
  (of_Z (r + sumZ (fun x => sumZ (fun y => channel pixels ((x + width * y) * 4 + 0)) ys) xs),
   of_Z (g + sumZ (fun x => sumZ (fun y => channel pixels ((x + width * y) * 4 + 1)) ys) xs),
   of_Z (b + sumZ (fun x => sumZ (fun y => channel pixels ((x + width * y) * 4 + 2)) ys) xs)).
Proof.
  revert r g b. induction xs as [|x xs IH]; intros r g b Hr.
  - simpl. by rewrite !Z.add_0_r.
  - cbn [foldl]. rewrite inner_loop_readable by (intros; apply Hr; [left|done]).
    rewrite IH by (intros; apply Hr; [by right|done]).
    rewrite !sumZ_cons. apply of_Z_triple; lia.
Qed.

(** When every pixel of the window is in the buffer, the accumulators
    end as the three channel sums. *)
Lemma getAverage_sums_readable (x0 y0 : Z) :
  (forall x y, x0 <= x < x0 + size -> y0 <= y < y0 + size -> readable width pixels x y) ->
  getAverage_sums size width pixels x0 y0 =
  (of_Z (channel_sum size width pixels x0 y0 0),
   of_Z (channel_sum size width pixels x0 y0 1),
   of_Z (channel_sum size width pixels x0 y0 2)).
Proof.
  intros Hr. unfold getAverage_sums.
  rewrite outer_loop_readable; [reflexivity|].
  intros x y Hx Hy. apply elem_of_seqZ in Hx, Hy. by apply Hr.
Qed.

(** [NaN] in the three accumulators stays there. *)
Lemma inner_loop_NaN (x : Z) (ys : list Z) :
  foldl (getAverage_body width pixels x) (NaN, NaN, NaN) ys = (NaN, NaN, NaN).
Proof. induction ys as [|y ys IH]; [done|]. cbn [foldl]. exact IH. Qed.

Lemma outer_loop_NaN (xs ys : list Z) :
  foldl (fun acc x => foldl (getAverage_body width pixels x) acc ys)
        (NaN, NaN, NaN) xs = (NaN, NaN, NaN).
Proof.
  induction xs as [|x xs IH]; [done|]. cbn [foldl].
  by rewrite inner_loop_NaN.
Qed.

(** A read past the end of the buffer puts it there. *)
Lemma getAverage_body_undefined (x y : Z) (acc : sums) :
  Z.of_nat (length pixels) <= (x + width * y) * 4 ->
  getAverage_body width pixels x acc y = (NaN, NaN, NaN).
Proof.
  intros Hi. destruct acc as [[r g] b]. unfold getAverage_body.
  rewrite !typed_get_out_of_range by lia.
  by destruct r, g, b.
Qed.

Lemma getAverage_sums_first_undefined (x0 y0 : Z) :
  1 <= size ->
  Z.of_nat (length pixels) <= (x0 + width * y0) * 4 ->
  getAverage_sums size width pixels x0 y0 = (NaN, NaN, NaN).
Proof.
  intros Hs Hi. unfold getAverage_sums.
  assert (foldl (getAverage_body width pixels x0) (of_Z 0, of_Z 0, of_Z 0)
                (seqZ y0 size) = (NaN, NaN, NaN)) as First.
  { rewrite (seqZ_cons y0) by lia. cbn [foldl].
    rewrite getAverage_body_undefined by done. apply inner_loop_NaN. }
  rewrite (seqZ_cons x0) by lia. cbn [foldl].
  rewrite First. apply outer_loop_NaN.
Qed.

End Sums.

Lemma luminance_of_Z (size R G B : Z) :
  size <> 0 ->
  luminance size (of_Z R, of_Z G, of_Z B) = Fin (spec_luminance size R G B).
Proof.
  intros Hs. unfold luminance, decimal, of_Z. cbn [num_mul num_add].
  unfold num_div. fold (qz size) (qz R) (qz G) (qz B).
  rewrite qz_mul, Qc_eq_bool_neq by (apply qz_neq_0; nia).
  unfold spec_luminance. by rewrite qz_mul.
Qed.

Lemma pixelate_cube_Fin (size W H : Z) table pixels cube (L : Qc) :
  getAverage size W pixels (W - position_x cube * size) (H - position_y cube * size)
  = Fin L ->
  pixelate_cube size W H table pixels cube = sampled table L cube.
Proof.
  intros E. unfold pixelate_cube. rewrite E. unfold sampled.
  cbn [Math_round]. rewrite colors_get_of_Z.
  rewrite (num_div_Fin L 10) by lia.
  unfold decimal. cbn [num_add]. fold (qdec 1 100).
  rewrite (num_div_Fin _ 2) by lia. reflexivity.
Qed.

Lemma in_frame_readable (W H : Z) (pixels : list byte) (x y : Z) :
  Z.of_nat (length pixels) = W * H * 4 ->
  in_frame W H x y -> readable W pixels x y.
Proof. unfold in_frame, readable. intros -> [Hx Hy]. nia. Qed.

(** Inside the frame the sampler computes the luminance of the
    specification from the three channel sums. *)
Lemma getAverage_in_frame (size W H : Z) (pixels : list byte) (x0 y0 : Z) :
  1 <= size ->
  Z.of_nat (length pixels) = W * H * 4 ->
  (forall x y, x0 <= x < x0 + size -> y0 <= y < y0 + size -> in_frame W H x y) ->
  getAverage size W pixels x0 y0 =
  Fin (spec_luminance size (channel_sum size W pixels x0 y0 0)
                           (channel_sum size W pixels x0 y0 1)
                           (channel_sum size W pixels x0 y0 2)).
Proof.
  intros Hs Hl Hin. unfold getAverage.
  rewrite getAverage_sums_readable
    by (intros; eapply in_frame_readable; eauto).
  by rewrite luminance_of_Z by lia.
Qed.

Lemma sumZ_le (f g : Z -> Z) (l : list Z) :
  (forall x, x ∈ l -> f x <= g x) -> sumZ f l <= sumZ g l.
Proof.
  induction l as [|x l IH]; intros Hfg; [done|].
  rewrite !sumZ_cons.
  pose proof (Hfg x ltac:(left)).
  pose proof (IH ltac:(intros; apply Hfg; by right)). lia.
Qed.

Lemma sumZ_const (f : Z -> Z) (c : Z) (l : list Z) :
  (forall x, x ∈ l -> f x = c) -> sumZ f l = c * Z.of_nat (length l).
Proof.
  induction l as [|x l IH]; intros Hf; [simpl; lia|].
  rewrite sumZ_cons, (Hf x ltac:(left)), IH by (intros; apply Hf; by right).
  cbn [length]. lia.
Qed.

Lemma spec_luminance_mono (size R G B R' G' B' : Z) :
  size <> 0 -> R <= R' -> G <= G' -> B <= B' ->
  (spec_luminance size R G B <= spec_luminance size R' G' B')%Qc.
Proof.
  intros Hs HR HG HB. unfold Qcle. push_this.
  apply Qmult_le_compat_r.
  - rewrite Zle_Qle in HR, HG, HB. lra.
  - apply Qinv_le_0_compat. rewrite <- inject_Z_mult.
    change 0%Q with (inject_Z 0). rewrite <- Zle_Qle. nia.
Qed.

Lemma spec_luminance_saturated (size : Z) :
  size <> 0 ->
  spec_luminance size (255 * size * size) (255 * size * size) (255 * size * size)
  = qz 255.
Proof.
  intros Hs. qc_to_q. rewrite !inject_Z_mult. field.
  intros E. unfold Qeq in E. simpl in E. lia.
Qed.

(** The constants of the fallback and of a saturated block. *)
Lemma sampled_one (table : gmap Z Color) (cube : Cube) :
  sampled table (qz 1) cube =
  {| position_x := position_x cube; position_y := position_y cube;
     position_z := decimal 55 1000; scale_z := decimal 11 100;
     material_color := table !! 1 |}.
Proof.
  unfold sampled, decimal.
  assert (spec_depthOffset (qz 1) = Q2Qc (55 # 1000)) as ->
    by (apply Qc_is_canon; vm_compute; reflexivity).
  assert (spec_heightValue (qz 1) = Q2Qc (11 # 100)) as ->
    by (apply Qc_is_canon; vm_compute; reflexivity).
  assert (spec_colorIndex (qz 1) = 1) as -> by reflexivity.
  reflexivity.
Qed.

Lemma sampled_255 (table : gmap Z Color) (cube : Cube) :
  sampled table (qz 255) cube =
  {| position_x := position_x cube; position_y := position_y cube;
     position_z := decimal 12755 1000; scale_z := decimal 2551 100;
     material_color := table !! 255 |}.
Proof.
  unfold sampled, decimal.
  assert (spec_depthOffset (qz 255) = Q2Qc (12755 # 1000)) as ->
    by (apply Qc_is_canon; vm_compute; reflexivity).
  assert (spec_heightValue (qz 255) = Q2Qc (2551 # 100)) as ->
    by (apply Qc_is_canon; vm_compute; reflexivity).
  assert (spec_colorIndex (qz 255) = 255) as -> by reflexivity.
  reflexivity.
Qed.

(** *** No infinity in the sampler *)

Lemma num_add_no_Inf (a b : number) : no_Inf a -> no_Inf b -> no_Inf (num_add a b).
Proof. by destruct a, b. Qed.

Lemma to_number_no_Inf (v : option byte) : no_Inf (to_number v).
Proof. by destruct v. Qed.

Lemma getAverage_body_no_Inf width pixels x acc y :
  sums_no_Inf acc -> sums_no_Inf (getAverage_body width pixels x acc y).
Proof.
  destruct acc as [[r g] b]. intros (Hr & Hg & Hb).
  repeat split; apply num_add_no_Inf; auto using to_number_no_Inf.
Qed.

Lemma foldl_invariant {A B} (P : A -> Prop) (f : A -> B -> A) (l : list B) (a : A) :
  (forall a b, P a -> P (f a b)) -> P a -> P (foldl f a l).
Proof. intros Hf. revert a. induction l; simpl; auto. Qed.

Lemma getAverage_sums_no_Inf size width pixels x0 y0 :
  sums_no_Inf (getAverage_sums size width pixels x0 y0).
Proof.
  unfold getAverage_sums. apply foldl_invariant; [|done].
  intros acc x Hacc. apply foldl_invariant; [|done].
  intros. by apply getAverage_body_no_Inf.
Qed.

Lemma luminance_no_Inf (size : Z) (acc : sums) :
  size <> 0 -> sums_no_Inf acc -> no_Inf (luminance size acc).
Proof.
  intros Hs. destruct acc as [[r g] b]. intros (Hr & Hg & Hb).
  unfold luminance, decimal, of_Z. fold (qz size).
  destruct r, g, b; try done; cbn [num_mul num_add].
  unfold num_div. by rewrite qz_mul, Qc_eq_bool_neq by (apply qz_neq_0; nia).
Qed.

(** The value before the [isNaN] test is never an infinity, whatever
    the buffer, the origin and [size]. *)
Lemma luminance_getAverage_sums_no_Inf size width pixels x0 y0 :
  no_Inf (luminance size (getAverage_sums size width pixels x0 y0)).
Proof.
  destruct (decide (size = 0)) as [->|Hs].
  - done.
  - apply luminance_no_Inf; [done|apply getAverage_sums_no_Inf].
Qed.

Lemma getAverage_not_finite size width pixels x0 y0 :
  isFinite (luminance size (getAverage_sums size width pixels x0 y0)) = false ->
  luminance size (getAverage_sums size width pixels x0 y0) = NaN /\
  getAverage size width pixels x0 y0 = of_Z 1.
Proof.
  intros Hf. unfold getAverage.
  pose proof (luminance_getAverage_sums_no_Inf size width pixels x0 y0) as Hn.
  by destruct (luminance size (getAverage_sums size width pixels x0 y0)).
Qed.

Lemma pixelate_cube_one size W H table pixels cube :
  getAverage size W pixels (W - position_x cube * size) (H - position_y cube * size)
  = of_Z 1 ->
  pixelate_cube size W H table pixels cube =
  {| position_x := position_x cube; position_y := position_y cube;
     position_z := decimal 55 1000; scale_z := decimal 11 100;
     material_color := table !! 1 |}.
Proof.
  intros E. rewrite (pixelate_cube_Fin _ _ _ _ _ _ (qz 1)) by exact E.
  apply sampled_one.
Qed.

(** *** The pass over the cubes *)

Lemma pixelate_Some (size : Z) (st st' : State) :
  pixelate size st = Some st' ->
  w st <> 0 /\ h st <> 0 /\
  getImageData st = Some (bitmap (ctx st)) /\
  st' = {| w := w st; h := h st;
           nrOfCubesX := nrOfCubesX st; nrOfCubesY := nrOfCubesY st;
           colors := colors st;
           cubes := pixelate_cube size (w st) (h st) (colors st) (bitmap (ctx st))
                      <$> cubes st;
           ctx := fillRect 0 0 50 50 (w st) (set_fillStyle "red" (ctx st)) |}.
Proof.
  unfold pixelate, getImageData.
  destruct (Z.eqb_spec (w st) 0), (Z.eqb_spec (h st) 0); simpl; try done.
  intros [= <-]. done.
Qed.

(** *** Buffers of one repeated byte, and the colour table *)

Lemma byte_val_bounds (b : byte) : 0 <= byte_val b <= 255.
Proof. unfold byte_val. pose proof (Byte.to_N_bounded b). lia. Qed.

Lemma channel_bounds (pixels : list byte) (index : Z) :
  0 <= channel pixels index <= 255.
Proof.
  unfold channel. destruct (typed_get pixels index); [apply byte_val_bounds|lia].
Qed.

Lemma channel_replicate (n : nat) (b : byte) (index : Z) :
  0 <= index < Z.of_nat n -> channel (replicate n b) index = byte_val b.
Proof.
  intros Hi. unfold channel, typed_get.
  destruct (Z.ltb_spec index 0); [lia|].
  by rewrite lookup_replicate_2 by lia.
Qed.

Lemma foldl_insert_lookup (f : Z -> Color) (l : list Z) (m : gmap Z Color) (c : Z) :
  foldl (fun m i => <[ i := f i ]> m) m l !! c =
  if decide (c ∈ l) then Some (f c) else m !! c.
Proof.
  revert m. induction l as [|x l IH]; intros m; cbn [foldl].
  - by rewrite decide_False by apply not_elem_of_nil.
  - rewrite IH. destruct (decide (c ∈ l)) as [Hin|Hnin].
    + by rewrite decide_True by by right.
    + destruct (decide (c = x)) as [->|Hne].
      * rewrite decide_True by left. apply lookup_insert_eq.
      * rewrite decide_False by (rewrite elem_of_cons; tauto).
        by apply lookup_insert_ne.
Qed.

Lemma setupColors_lookup (c : Z) :
  setupColors !! c = if decide (0 <= c < 256) then Some (rgb c c c) else None.
Proof.
  unfold setupColors. rewrite foldl_insert_lookup.
  destruct (decide (0 <= c < 256)).
  - rewrite decide_True by (apply elem_of_seqZ; lia). done.
  - rewrite decide_False by (rewrite elem_of_seqZ; lia). apply lookup_empty.
Qed.

(** ** Properties of the frame sampler *)

(** C3: in a pass of [pixelate], the cube at each position of [cubes] is
    replaced by the one sampled at the doubly mirrored origin: the value
    [col] it is updated from is [getAverage] called with
    [x0 = w - x * size] and [y0 = h - y * size], for [x] and [y] the grid
    coordinates of the cube, on the snapshot of the canvas. *)
Theorem pixelate_samples_mirrored_origin (size : Z) (st st' : State)
    (i : nat) (cube : Cube) :
  pixelate size st = Some st' ->
  cubes st !! i = Some cube ->
  exists pixels,
    getImageData st = Some pixels /\
    let col := getAverage size (w st) pixels
                 (w st - position_x cube * size) (h st - position_y cube * size) in
    let z := num_add (num_div col (of_Z 10)) (decimal 1 100) in
    cubes st' !! i =
    Some {| position_x := position_x cube;
            position_y := position_y cube;
            position_z := num_div z (of_Z 2);
            scale_z := z;
            material_color := colors_get (colors st) (Math_round col) |}.
Proof.
  intros Hp Hc. apply pixelate_Some in Hp as (_ & _ & Hg & ->).
  exists (bitmap (ctx st)). split; [exact Hg|].
  cbn [cubes]. by rewrite list_lookup_fmap, Hc.
Qed.


(** C5: a cube of the grid in row 0 has its window below the last row
    of the frame; every index it reads is past the end of a buffer of
    [W * H * 4] bytes, the luminance is [NaN], and the sampler writes the
    fallback: colour index 1, height 0.11, depth 0.055, for every content
    of the buffer. *)
Theorem first_row_always_fallback (size W H : Z) (st st2 : State)
    (table : gmap Z Color) (pixels : list byte) (cube : Cube) :
  1 <= size -> 0 <= W -> 0 <= H ->
  setupCubes (reset size W H st) = Some st2 ->
  cube ∈ cubes st2 ->
  position_y cube = 0 ->
  Z.of_nat (length pixels) = W * H * 4 ->
  let x0 := W - position_x cube * size in
  let y0 := H - position_y cube * size in
  (forall x y, sampled_window size W H cube x y ->
               H <= y /\ Z.of_nat (length pixels) <= (x + W * y) * 4) /\
  getAverage_sums size W pixels x0 y0 = (NaN, NaN, NaN) /\
  luminance size (getAverage_sums size W pixels x0 y0) = NaN /\
  Math_round (getAverage size W pixels x0 y0) = of_Z 1 /\
  pixelate_cube size W H table pixels cube =
  {| position_x := position_x cube;
     position_y := position_y cube;
     position_z := decimal 55 1000;
     scale_z := decimal 11 100;
     material_color := table !! 1 |}.
Proof.
  intros Hs HW HH E Hin Hy Hl x0 y0.
  apply (elem_of_setupCubes size W H st st2 cube) in Hin
    as (gx & gy & -> & Hgx & Hgx' & Hgy & Hgy'); try done.
  cbn [position_x position_y new_cube] in *. subst gy.
  assert (Z.of_nat (length pixels) <= (x0 + W * y0) * 4) as Hfirst
    by (subst x0 y0; nia).
  assert (getAverage_sums size W pixels x0 y0 = (NaN, NaN, NaN)) as Hsums
    by by apply getAverage_sums_first_undefined.
  assert (getAverage size W pixels x0 y0 = of_Z 1) as Hcol
    by (unfold getAverage; by rewrite Hsums).
  split; [|split; [|split; [|split]]].
  - unfold sampled_window. cbn [position_x position_y new_cube].
    intros x y [Hx Hy]. split; nia.
  - exact Hsums.
  - by rewrite Hsums.
  - by rewrite Hcol.
  - by apply pixelate_cube_one.
Qed.

(** C6: when the luminance computed from the sums is not a finite number
    it is [NaN] (no infinity can come out of sums of bytes), [getAverage]
    returns 1 in its place, and the sampler writes colour index 1, height
    0.11 and depth 0.055.  All the functions involved are total: nothing
    is raised. *)
Theorem nonfinite_luminance_fallback (size W H : Z) (table : gmap Z Color)
    (pixels : list byte) (cube : Cube) :
  isFinite (luminance size
              (getAverage_sums size W pixels (W - position_x cube * size)
                                             (H - position_y cube * size)))
  = false ->
  getAverage size W pixels (W - position_x cube * size)
                           (H - position_y cube * size) = of_Z 1 /\
  Math_round (getAverage size W pixels (W - position_x cube * size)
                                       (H - position_y cube * size)) = of_Z 1 /\
  pixelate_cube size W H table pixels cube =
  {| position_x := position_x cube;
     position_y := position_y cube;
     position_z := decimal 55 1000;
     scale_z := decimal 11 100;
     material_color := table !! 1 |}.
Proof.
  intros Hf. apply getAverage_not_finite in Hf as [_ Hcol].
  split; [exact Hcol|]. split; [by rewrite Hcol|].
  by apply pixelate_cube_one.
Qed.

Lemma channel_sum_le (size W : Z) (A B : list byte) (x0 y0 k : Z) :
  (forall x y, x0 <= x < x0 + size -> y0 <= y < y0 + size ->
               channel A ((x + W * y) * 4 + k) <= channel B ((x + W * y) * 4 + k)) ->
  channel_sum size W A x0 y0 k <= channel_sum size W B x0 y0 k.
Proof.
  intros Hle. unfold channel_sum.
  apply sumZ_le. intros x Hx. apply sumZ_le. intros y Hy.
  apply elem_of_seqZ in Hx, Hy. by apply Hle.
Qed.

Lemma channel_sum_const (size W : Z) (pixels : list byte) (x0 y0 k c : Z) :
  0 <= size ->
  (forall x y, x0 <= x < x0 + size -> y0 <= y < y0 + size ->
               channel pixels ((x + W * y) * 4 + k) = c) ->
  channel_sum size W pixels x0 y0 k = c * size * size.
Proof.
  intros Hs Hc. unfold channel_sum.
  rewrite (sumZ_const _ (c * size)).
  - rewrite length_seqZ, Z2Nat.id by lia. reflexivity.
  - intros x Hx. rewrite (sumZ_const _ c).
    + rewrite length_seqZ, Z2Nat.id by lia. reflexivity.
    + intros y Hy. apply elem_of_seqZ in Hx, Hy. by apply Hc.
Qed.

Lemma sumZ_nonneg (f : Z -> Z) (l : list Z) :
  (forall x, x ∈ l -> 0 <= f x) -> 0 <= sumZ f l.
Proof.
  induction l as [|x l IH]; intros Hf; [done|].
  rewrite sumZ_cons.
  pose proof (Hf x ltac:(left)).
  pose proof (IH ltac:(intros; apply Hf; by right)). lia.
Qed.

Lemma channel_sum_bounds (size W : Z) (pixels : list byte) (x0 y0 k : Z) :
  0 <= size ->
  0 <= channel_sum size W pixels x0 y0 k <= 255 * size * size.
Proof.
  intros Hs. unfold channel_sum. split.
  - apply sumZ_nonneg. intros x _. apply sumZ_nonneg. intros y _.
    apply channel_bounds.
  - etransitivity.
    + apply (sumZ_le _ (fun _ => 255 * size)). intros x _.
      etransitivity.
      * apply (sumZ_le _ (fun _ => 255)). intros y _. apply channel_bounds.
      * rewrite (sumZ_const _ 255) by done.
        rewrite length_seqZ, Z2Nat.id by lia. reflexivity.
    + rewrite (sumZ_const _ (255 * size)) by done.
      rewrite length_seqZ, Z2Nat.id by lia. reflexivity.
Qed.

Lemma spec_colorIndex_bounds (size R G B : Z) :
  1 <= size ->
  0 <= R <= 255 * size * size ->
  0 <= G <= 255 * size * size ->
  0 <= B <= 255 * size * size ->
  0 <= spec_colorIndex (spec_luminance size R G B) <= 255.
Proof.
  intros Hs HR HG HB. unfold spec_colorIndex.
  assert (0 < inject_Z size * inject_Z size)%Q as Hpos.
  { rewrite <- inject_Z_mult. change 0%Q with (inject_Z 0).
    rewrite <- Zlt_Qlt. nia. }
  assert (0 <= this (spec_luminance size R G B) <= 255)%Q as [Hlo Hhi].
  { push_this.
    destruct HR as [HR0 HR1], HG as [HG0 HG1], HB as [HB0 HB1].
    rewrite Zle_Qle in HR0, HR1, HG0, HG1, HB0, HB1.
    rewrite !inject_Z_mult in HR1, HG1, HB1.
    set (t := (inject_Z size * inject_Z size)%Q) in *.
    rewrite <- !Qmult_assoc in HR1, HG1, HB1. fold t in HR1, HG1, HB1.
    change (inject_Z 255) with 255%Q in *. change (inject_Z 0) with 0%Q in *.
    split.
    - apply Qle_shift_div_l; [done|]. lra.
    - apply Qle_shift_div_r; [done|]. lra. }
  split.
  - change 0 with (Qfloor (0 + (1 # 2))). apply Qfloor_resp_le. lra.
  - change 255 with (Qfloor (255 + (1 # 2))). apply Qfloor_resp_le. lra.
Qed.

(** With the table of [setupColors], the colour written for a block
    inside the frame is a grey of the table: [colors.get] never answers
    [undefined] there. *)
Lemma sampler_in_frame_color (size W H : Z) (pixels : list byte) (cube : Cube) :
  1 <= size ->
  Z.of_nat (length pixels) = W * H * 4 ->
  window_in_frame size W H cube ->
  exists c, 0 <= c <= 255 /\
    material_color (pixelate_cube size W H setupColors pixels cube)
    = Some (rgb c c c).
Proof.
  intros Hs Hl Hin.
  set (x0 := W - position_x cube * size). set (y0 := H - position_y cube * size).
  assert (getAverage size W pixels x0 y0 =
          Fin (spec_luminance size (channel_sum size W pixels x0 y0 0)
                                   (channel_sum size W pixels x0 y0 1)
                                   (channel_sum size W pixels x0 y0 2))) as E.
  { apply (getAverage_in_frame size W H); try done.
    intros x y Hx Hy. apply Hin. by split. }
  rewrite (pixelate_cube_Fin _ _ _ _ _ _ _ E). cbn [sampled material_color].
  pose proof (spec_colorIndex_bounds size _ _ _ Hs
                (channel_sum_bounds size W pixels x0 y0 0 ltac:(lia))
                (channel_sum_bounds size W pixels x0 y0 1 ltac:(lia))
                (channel_sum_bounds size W pixels x0 y0 2 ltac:(lia))) as Hc.
  eexists. split; [exact Hc|].
  rewrite setupColors_lookup. by rewrite decide_True by lia.
Qed.

(** C7, as the code has it: a block inside the frame whose red, green
    and blue bytes are all 255 gets the colour of index 255, the height
    [255 / 10 + 0.01 = 25.51] and the depth [12.755]. *)
Theorem saturated_block_outputs (size W H : Z) (table : gmap Z Color)
    (pixels : list byte) (cube : Cube) :
  1 <= size ->
  Z.of_nat (length pixels) = W * H * 4 ->
  window_in_frame size W H cube ->
  (forall x y k, sampled_window size W H cube x y -> 0 <= k <= 2 ->
                 channel pixels ((x + W * y) * 4 + k) = 255) ->
  Math_round (getAverage size W pixels (W - position_x cube * size)
                         (H - position_y cube * size)) = of_Z 255 /\
  pixelate_cube size W H table pixels cube =
  {| position_x := position_x cube;
     position_y := position_y cube;
     position_z := decimal 12755 1000;
     scale_z := decimal 2551 100;
     material_color := table !! 255 |}.
Proof.
  intros Hs Hl Hin Hsat.
  assert (getAverage size W pixels (W - position_x cube * size)
            (H - position_y cube * size) = Fin (qz 255)) as E.
  { rewrite (getAverage_in_frame size W H); try done.
    - assert (forall k, 0 <= k <= 2 ->
                channel_sum size W pixels (W - position_x cube * size)
                  (H - position_y cube * size) k = 255 * size * size) as Hk.
      { intros k Hk. apply channel_sum_const; [lia|].
        intros x y Hx Hy. apply Hsat; [by split|done]. }
      rewrite !Hk by lia. by rewrite spec_luminance_saturated by lia.
    - intros x y Hx Hy. apply Hin. by split. }
  split; [by rewrite E|].
  rewrite (pixelate_cube_Fin _ _ _ _ _ _ (qz 255)) by exact E.
  apply sampled_255.
Qed.

(** C8: for a block inside the frame and two buffers [A] and [B] with
    each red, green and blue byte of the block in [B] at least the one in
    [A], the luminance [getAverage] returns on [B] is at least the one it
    returns on [A]. *)
Theorem luminance_monotone (size W H : Z) (A B : list byte) (cube : Cube) :
  1 <= size ->
  Z.of_nat (length A) = W * H * 4 ->
  Z.of_nat (length B) = W * H * 4 ->
  window_in_frame size W H cube ->
  (forall x y k, sampled_window size W H cube x y -> 0 <= k <= 2 ->
                 channel A ((x + W * y) * 4 + k) <= channel B ((x + W * y) * 4 + k)) ->
  exists a b : Qc,
    getAverage size W A (W - position_x cube * size) (H - position_y cube * size)
    = Fin a /\
    getAverage size W B (W - position_x cube * size) (H - position_y cube * size)
    = Fin b /\
    (a <= b)%Qc.
Proof.
  intros Hs HA HB Hin Hle.
  eexists _, _. split; [|split].
  - apply (getAverage_in_frame size W H); try done.
    intros x y Hx Hy. apply Hin. by split.
  - apply (getAverage_in_frame size W H); try done.
    intros x y Hx Hy. apply Hin. by split.
  - assert (forall k, 0 <= k <= 2 ->
              channel_sum size W A (W - position_x cube * size)
                (H - position_y cube * size) k
              <= channel_sum size W B (W - position_x cube * size)
                   (H - position_y cube * size) k) as Hk.
    { intros k Hk. apply channel_sum_le.
      intros x y Hx Hy. apply Hle; [by split|done]. }
    apply spec_luminance_mono; [lia|apply Hk; lia ..].
Qed.

(** C9: sampling a cube a second time from the same buffer writes the
    same colour, height and depth as the first time, the cube being left
    as the first sampling made it; so does a second run over all the
    cubes.  What is written depends on the grid coordinates and on the
    buffer only, and the sampler writes neither. *)
Theorem sampler_twice_same_outputs (size W H : Z) (table : gmap Z Color)
    (pixels : list byte) (cube : Cube) (cs : list Cube) :
  let sample := pixelate_cube size W H table pixels in
  (material_color (sample (sample cube)) = material_color (sample cube) /\
   scale_z (sample (sample cube)) = scale_z (sample cube) /\
   position_z (sample (sample cube)) = position_z (sample cube)) /\
  sample (sample cube) = sample cube /\
  sample <$> (sample <$> cs) = sample <$> cs /\
  (forall other, position_x other = position_x cube ->
                 position_y other = position_y cube ->
                 sample other = sample cube).
Proof.
  intros sample.
  assert (forall a b, position_x a = position_x b ->
                      position_y a = position_y b -> sample a = sample b) as Hxy.
  { intros a b Hx Hy. unfold sample, pixelate_cube. by rewrite Hx, Hy. }
  assert (forall a, sample (sample a) = sample a) as Hidem
    by (intros a; by apply Hxy).
  split; [by rewrite Hidem|]. split; [apply Hidem|].
  split; [|exact (fun other => Hxy other cube)].
  rewrite <- list_fmap_compose. apply list_fmap_ext. intros i a _. apply Hidem.
Qed.

(** *** The effect of a pass *)

Lemma fillRect_lookup (x0 y0 rw rh width : Z) (c : Canvas) (i : nat) (b : byte) :
  bitmap c !! i = Some b ->
  bitmap (fillRect x0 y0 rw rh width c) !! i =
  Some (if in_rect x0 y0 rw rh width i
        then default b (css_rgba (fillStyle c) !! (i mod 4)%nat)
        else b).
Proof. intros Hb. cbn [fillRect bitmap]. by rewrite list_lookup_imap, Hb. Qed.

(** C10, as the code has it: a pass of [pixelate] leaves [w], [h], the
    grid dimensions and the colour table as they are; it replaces each
    cube by the one sampled from the snapshot of the canvas taken at the
    start of the pass, with the same grid coordinates, so that only its
    colour, its [scale.z] and its [position.z] may differ; and it paints
    the debugging rectangle on the 2D canvas: the fill style becomes
    ["red"] and the bytes of the pixels of the 50 by 50 square at the
    origin become those of red, the other bytes staying. *)
Theorem pixelate_frame_effect (size : Z) (st st' : State) :
  pixelate size st = Some st' ->
  (w st' = w st /\ h st' = h st /\
   nrOfCubesX st' = nrOfCubesX st /\ nrOfCubesY st' = nrOfCubesY st /\
   colors st' = colors st) /\
  (length (cubes st') = length (cubes st) /\
   forall i cube, cubes st !! i = Some cube ->
     exists cube', cubes st' !! i = Some cube' /\
       position_x cube' = position_x cube /\
       position_y cube' = position_y cube /\
       cube' = pixelate_cube size (w st) (h st) (colors st) (bitmap (ctx st)) cube) /\
  (fillStyle (ctx st') = "red"%string /\
   length (bitmap (ctx st')) = length (bitmap (ctx st)) /\
   forall i b, bitmap (ctx st) !! i = Some b ->
     bitmap (ctx st') !! i =
     Some (if in_rect 0 0 50 50 (w st) i
           then default b ([xff; x00; x00; xff] !! (i mod 4)%nat)
           else b)).
Proof.
  intros Hp. apply pixelate_Some in Hp as (_ & _ & _ & ->).
  cbn [w h nrOfCubesX nrOfCubesY colors cubes ctx].
  split; [done|]. split; [split|split; [|split]].
  - apply length_fmap.
  - intros i cube Hc. eexists. rewrite list_lookup_fmap, Hc. done.
  - done.
  - cbn [fillRect bitmap set_fillStyle]. apply length_imap.
  - intros i b Hb. by rewrite (fillRect_lookup _ _ _ _ _ _ i b).
Qed.

(** ** The theorems at work on the example frames *)

Lemma example_window_in_frame : window_in_frame 8 16 16 (new_cube 1 1).
Proof.
  intros x y [Hx Hy]. cbn [position_x position_y new_cube] in Hx, Hy.
  unfold in_frame. lia.
Defined.

Lemma example_window_index (x y k : Z) :
  sampled_window 8 16 16 (new_cube 1 1) x y -> 0 <= k <= 2 ->
  0 <= (x + 16 * y) * 4 + k < Z.of_nat 1024.
Proof.
  intros [Hx Hy] Hk. cbn [position_x position_y new_cube] in Hx, Hy. lia.
Defined.

Lemma example_pixelate : pixelate 8 example_state = Some example_state_after.
Proof. reflexivity. Qed.

Lemma pixelate_samples_mirrored_origin_witness :
  exists pixels,
    getImageData example_state = Some pixels /\
    let col := getAverage 8 (w example_state) pixels
                 (w example_state - position_x (new_cube 1 1) * 8)
                 (h example_state - position_y (new_cube 1 1) * 8) in
    let z := num_add (num_div col (of_Z 10)) (decimal 1 100) in
    cubes example_state_after !! 3%nat =
    Some {| position_x := position_x (new_cube 1 1);
            position_y := position_y (new_cube 1 1);
            position_z := num_div z (of_Z 2);
            scale_z := z;
            material_color := colors_get (colors example_state) (Math_round col) |}.
Proof.
  apply (pixelate_samples_mirrored_origin 8 example_state example_state_after 3
           (new_cube 1 1)); reflexivity.
Defined.

(** The mirrored origin is not the plain one: on the half black, half
    white frame the cube [(1, 1)] gets the luminance 255 of the window at
    [(16, 16)], where the window at [(8, 8)] would give 127.5. *)
Example mirrored_origin_differs_from_plain :
  getAverage 8 24 half_frame (24 - 1 * 8) (24 - 1 * 8) = of_Z 255 /\
  getAverage 8 24 half_frame (1 * 8) (1 * 8) = decimal 1275 10 /\
  scale_z (pixelate_cube 8 24 24 setupColors half_frame (new_cube 1 1))
  = decimal 2551 100.
Proof. repeat split; apply num_eqb_eq; vm_compute; reflexivity. Qed.


Lemma first_row_always_fallback_witness :
  let x0 := 16 - position_x (new_cube 1 0) * 8 in
  let y0 := 16 - position_y (new_cube 1 0) * 8 in
  (forall x y, sampled_window 8 16 16 (new_cube 1 0) x y ->
               16 <= y /\ Z.of_nat (length white_frame) <= (x + 16 * y) * 4) /\
  getAverage_sums 8 16 white_frame x0 y0 = (NaN, NaN, NaN) /\
  luminance 8 (getAverage_sums 8 16 white_frame x0 y0) = NaN /\
  Math_round (getAverage 8 16 white_frame x0 y0) = of_Z 1 /\
  pixelate_cube 8 16 16 setupColors white_frame (new_cube 1 0) =
  {| position_x := position_x (new_cube 1 0);
     position_y := position_y (new_cube 1 0);
     position_z := decimal 55 1000;
     scale_z := decimal 11 100;
     material_color := setupColors !! 1 |}.
Proof.
  apply (first_row_always_fallback 8 16 16 initial_state example_grid
           setupColors white_frame (new_cube 1 0));
    [lia | lia | lia | reflexivity | | reflexivity | reflexivity].
  cbn [cubes example_grid]. do 2 right. left.
Defined.

Lemma nonfinite_luminance_fallback_witness :
  getAverage 8 16 white_frame (16 - position_x (new_cube 0 0) * 8)
                              (16 - position_y (new_cube 0 0) * 8) = of_Z 1 /\
  Math_round (getAverage 8 16 white_frame (16 - position_x (new_cube 0 0) * 8)
                                          (16 - position_y (new_cube 0 0) * 8))
  = of_Z 1 /\
  pixelate_cube 8 16 16 setupColors white_frame (new_cube 0 0) =
  {| position_x := position_x (new_cube 0 0);
     position_y := position_y (new_cube 0 0);
     position_z := decimal 55 1000;
     scale_z := decimal 11 100;
     material_color := setupColors !! 1 |}.
Proof.
  apply (nonfinite_luminance_fallback 8 16 16 setupColors white_frame (new_cube 0 0)).
  vm_compute. reflexivity.
Defined.

Lemma saturated_block_outputs_witness :
  Math_round (getAverage 8 16 white_frame (16 - position_x (new_cube 1 1) * 8)
                         (16 - position_y (new_cube 1 1) * 8)) = of_Z 255 /\
  pixelate_cube 8 16 16 setupColors white_frame (new_cube 1 1) =
  {| position_x := position_x (new_cube 1 1);
     position_y := position_y (new_cube 1 1);
     position_z := decimal 12755 1000;
     scale_z := decimal 2551 100;
     material_color := setupColors !! 255 |}.
Proof.
  apply (saturated_block_outputs 8 16 16 setupColors white_frame (new_cube 1 1));
    [lia | reflexivity | exact example_window_in_frame |].
  intros x y k Hw Hk. unfold white_frame.
  rewrite channel_replicate by (by apply example_window_index). reflexivity.
Defined.

(** C7 as stated fails on the white frame: the block of the cube
    [(1, 1)] is inside the frame and all its bytes are 255, the colour
    index written is 255, but the height is not 25.6 and the depth is
    not 12.8. *)
Lemma saturated_block_counterexample :
  window_in_frame 8 16 16 (new_cube 1 1) /\
  (forall x y k, sampled_window 8 16 16 (new_cube 1 1) x y -> 0 <= k <= 2 ->
                 channel white_frame ((x + 16 * y) * 4 + k) = 255) /\
  material_color (pixelate_cube 8 16 16 setupColors white_frame (new_cube 1 1))
  = Some (rgb 255 255 255) /\
  scale_z (pixelate_cube 8 16 16 setupColors white_frame (new_cube 1 1))
  <> decimal 256 10 /\
  position_z (pixelate_cube 8 16 16 setupColors white_frame (new_cube 1 1))
  <> decimal 128 10.
Proof.
  split; [exact example_window_in_frame|]. split.
  { intros x y k Hw Hk. unfold white_frame.
    rewrite channel_replicate by (by apply example_window_index). reflexivity. }
  split; [vm_compute; reflexivity|].
  split; intros E; apply num_eqb_eq in E; vm_compute in E; discriminate.
Qed.

Lemma luminance_monotone_witness :
  exists a b : Qc,
    getAverage 8 16 black_frame (16 - position_x (new_cube 1 1) * 8)
                                (16 - position_y (new_cube 1 1) * 8) = Fin a /\
    getAverage 8 16 white_frame (16 - position_x (new_cube 1 1) * 8)
                                (16 - position_y (new_cube 1 1) * 8) = Fin b /\
    (a <= b)%Qc.
Proof.
  apply (luminance_monotone 8 16 16 black_frame white_frame (new_cube 1 1));
    [lia | reflexivity | reflexivity | exact example_window_in_frame |].
  intros x y k Hw Hk. unfold black_frame, white_frame.
  rewrite !channel_replicate by (by apply example_window_index).
  vm_compute. discriminate.
Defined.

Lemma pixelate_frame_effect_witness :
  (w example_state_after = w example_state /\
   h example_state_after = h example_state /\
   nrOfCubesX example_state_after = nrOfCubesX example_state /\
   nrOfCubesY example_state_after = nrOfCubesY example_state /\
   colors example_state_after = colors example_state) /\
  (length (cubes example_state_after) = length (cubes example_state) /\
   forall i cube, cubes example_state !! i = Some cube ->
     exists cube', cubes example_state_after !! i = Some cube' /\
       position_x cube' = position_x cube /\
       position_y cube' = position_y cube /\
       cube' = pixelate_cube 8 (w example_state) (h example_state)
                 (colors example_state) (bitmap (ctx example_state)) cube) /\
  (fillStyle (ctx example_state_after) = "red"%string /\
   length (bitmap (ctx example_state_after)) = length (bitmap (ctx example_state)) /\
   forall i b, bitmap (ctx example_state) !! i = Some b ->
     bitmap (ctx example_state_after) !! i =
     Some (if in_rect 0 0 50 50 (w example_state) i
           then default b ([xff; x00; x00; xff] !! (i mod 4)%nat)
           else b)).
Proof.
  apply (pixelate_frame_effect 8 example_state example_state_after).
  reflexivity.
Defined.

(** C10 as stated fails on the example state: the pass changes the 2D
    canvas, whose fill style goes from black to red and whose first pixel
    goes from white to red. *)
Lemma pixelate_paints_canvas_counterexample :
  pixelate 8 example_state = Some example_state_after /\
  fillStyle (ctx example_state_after) <> fillStyle (ctx example_state) /\
  bitmap (ctx example_state) !! 1%nat = Some xff /\
  bitmap (ctx example_state_after) !! 1%nat = Some x00.
Proof.
  split; [exact example_pixelate|].
  split; [discriminate|]. split; reflexivity.
Qed.

(** ** The example frames in double precision

    The white block of the cube [(1, 1)]: the luminance comes out one
    unit in the last place under 255, which [Math.round] brings back to
    255 (the value lies between 254.5 and 255.5); the height and the
    depth are the doubles next to 25.51 and 12.755, not 25.6 and 12.8. *)
Example double_saturated_block :
  double_getAverage 8 16 white_frame 8 8 = 254.99999999999997%float /\
  ((254.5 <=? double_getAverage 8 16 white_frame 8 8)%float
   && (double_getAverage 8 16 white_frame 8 8 <? 255.5)%float = true) /\
  double_height (double_getAverage 8 16 white_frame 8 8)
  = 25.509999999999998%float /\
  double_depth (double_height (double_getAverage 8 16 white_frame 8 8))
  = 12.754999999999999%float /\
  (double_height (double_getAverage 8 16 white_frame 8 8) =? 25.6)%float = false /\
  (double_depth (double_height (double_getAverage 8 16 white_frame 8 8)) =? 12.8)%float
  = false.
Proof. repeat split; vm_compute; reflexivity. Qed.

(** The block of the cube [(1, 0)], below the frame: the fallback 1,
    the height 0.11 and the depth 0.055, exactly. *)
Example double_first_row_block :
  double_getAverage 8 16 white_frame 8 16 = 1%float /\
  double_height (double_getAverage 8 16 white_frame 8 16) = 0.11%float /\
  double_depth (double_height (double_getAverage 8 16 white_frame 8 16))
  = 0.055%float.
Proof. repeat split; vm_compute; reflexivity. Qed.

(** ** The range of the sampler *)













Lemma spec_heightValue_mono (L L' : Qc) :
  (L <= L')%Qc -> (spec_heightValue L <= spec_heightValue L')%Qc.
Proof.
  unfold Qcle. push_this. change (inject_Z 10) with 10%Q.
  intros HL. apply Qplus_le_l. apply Qmult_le_compat_r; [exact HL|].
  by apply Qle_bool_imp_le.
Qed.




(** ** Uniform blocks, and brighter blocks *)



Lemma spec_colorIndex_mono (L L' : Qc) :
  (L <= L')%Qc -> spec_colorIndex L <= spec_colorIndex L'.
Proof.
  unfold Qcle, spec_colorIndex. intros HL. apply Qfloor_resp_le. lra.
Qed.



(** X4: of two frames, the one whose bytes are at least those of the
    other over the block of a cube inside the frame gives that cube a
    colour index and a height at least as large: brighter blocks make
    lighter and taller cubes. *)
Theorem brighter_block_taller (size W H : Z) (table : gmap Z Color)
    (A B : list byte) (cube : Cube) :
  1 <= size ->
  Z.of_nat (length A) = W * H * 4 ->
  Z.of_nat (length B) = W * H * 4 ->
  window_in_frame size W H cube ->
  (forall x y k, sampled_window size W H cube x y -> 0 <= k <= 2 ->
                 channel A ((x + W * y) * 4 + k) <= channel B ((x + W * y) * 4 + k)) ->
  exists (cA cB : Z) (zA zB : Qc),
    cA <= cB /\ (zA <= zB)%Qc /\
    Math_round (getAverage size W A (W - position_x cube * size)
                           (H - position_y cube * size)) = of_Z cA /\
    Math_round (getAverage size W B (W - position_x cube * size)
                           (H - position_y cube * size)) = of_Z cB /\
    material_color (pixelate_cube size W H table A cube) = table !! cA /\
    material_color (pixelate_cube size W H table B cube) = table !! cB /\
    scale_z (pixelate_cube size W H table A cube) = Fin zA /\
    scale_z (pixelate_cube size W H table B cube) = Fin zB.
Proof.
  intros Hs HA HB Hin Hle.
  set (x0 := W - position_x cube * size). set (y0 := H - position_y cube * size).
  assert (forall x y, x0 <= x < x0 + size -> y0 <= y < y0 + size -> in_frame W H x y)
    as Hin' by (intros x y Hx Hy; apply Hin; by split).
  pose proof (getAverage_in_frame size W H A x0 y0 Hs HA Hin') as EA.
  pose proof (getAverage_in_frame size W H B x0 y0 Hs HB Hin') as EB.
  assert (forall k, 0 <= k <= 2 ->
            channel_sum size W A x0 y0 k <= channel_sum size W B x0 y0 k) as Hk.
  { intros k Hk. apply channel_sum_le.
    intros x y Hx Hy. apply Hle; [by split|done]. }
  pose proof (spec_luminance_mono size _ _ _ _ _ _ ltac:(lia)
                (Hk 0 ltac:(lia)) (Hk 1 ltac:(lia)) (Hk 2 ltac:(lia))) as HL.
  rewrite (pixelate_cube_Fin _ _ _ _ _ _ _ EA), (pixelate_cube_Fin _ _ _ _ _ _ _ EB).
  fold x0 y0. rewrite EA, EB.
  eexists _, _, _, _. cbn [sampled material_color scale_z Math_round].
  split; [by apply spec_colorIndex_mono|].
  split; [by apply spec_heightValue_mono|]. done.
Qed.

Lemma brighter_block_taller_witness :
  exists (cA cB : Z) (zA zB : Qc),
    cA <= cB /\ (zA <= zB)%Qc /\
    Math_round (getAverage 8 16 black_frame (16 - position_x (new_cube 1 1) * 8)
                           (16 - position_y (new_cube 1 1) * 8)) = of_Z cA /\
    Math_round (getAverage 8 16 white_frame (16 - position_x (new_cube 1 1) * 8)
                           (16 - position_y (new_cube 1 1) * 8)) = of_Z cB /\
    material_color (pixelate_cube 8 16 16 setupColors black_frame (new_cube 1 1))
    = setupColors !! cA /\
    material_color (pixelate_cube 8 16 16 setupColors white_frame (new_cube 1 1))
    = setupColors !! cB /\
    scale_z (pixelate_cube 8 16 16 setupColors black_frame (new_cube 1 1)) = Fin zA /\
    scale_z (pixelate_cube 8 16 16 setupColors white_frame (new_cube 1 1)) = Fin zB.
Proof.
  apply (brighter_block_taller 8 16 16 setupColors black_frame white_frame
           (new_cube 1 1));
    [lia | reflexivity | reflexivity | exact example_window_in_frame |].
  intros x y k Hw Hk. unfold black_frame, white_frame.
  rewrite !channel_replicate by (by apply example_window_index).
  vm_compute. discriminate.
Defined.

(** ** Windows that leave the frame *)

Lemma foldl_ext {A B} (f g : A -> B -> A) (a : A) (l : list B) :
  (forall a b, f a b = g a b) -> foldl f a l = foldl g a l.
Proof.
  intros Hfg. revert a. induction l as [|b l IH]; intros a; [done|].
  cbn [foldl]. by rewrite Hfg, IH.
Qed.

Lemma getAverage_body_wraps (width : Z) (pixels : list byte)
    (x : Z) (acc : sums) (y : Z) :
  getAverage_body width pixels (width + x) acc y
  = getAverage_body width pixels x acc (1 + y).
Proof.
  destruct acc as [[r g] b]. unfold getAverage_body.
  by replace ((width + x + width * y) * 4) with ((x + width * (1 + y)) * 4) by ring.
Qed.

Lemma getAverage_sums_wraps (size W : Z) (pixels : list byte) (x0 y0 : Z) :
  getAverage_sums size W pixels (x0 + W) y0 = getAverage_sums size W pixels x0 (y0 + 1).
Proof.
  unfold getAverage_sums.
  rewrite (Z.add_comm x0 W), (Z.add_comm y0 1).
  rewrite <- (fmap_add_seqZ W x0), <- (fmap_add_seqZ 1 y0), foldl_fmap.
  apply foldl_ext. intros acc x. rewrite foldl_fmap. apply foldl_ext.
  intros acc' y. apply getAverage_body_wraps.
Qed.

(** X5: the linear index does not tell a column past the right edge from
    a column of the next row: the window of origin [(x0 + w, y0)] is read
    as the window of origin [(x0, y0 + 1)], whatever the buffer; and so
    on, [k] rows down for [k] widths to the right. *)
Theorem getAverage_wraps_to_next_row (size W : Z) (pixels : list byte)
    (x0 y0 : Z) (k : nat) :
  getAverage size W pixels (x0 + W) y0 = getAverage size W pixels x0 (y0 + 1) /\
  getAverage size W pixels (x0 + Z.of_nat k * W) y0
  = getAverage size W pixels x0 (y0 + Z.of_nat k).
Proof.
  split; [unfold getAverage; by rewrite getAverage_sums_wraps|].
  revert x0 y0. induction k as [|k IH]; intros x0 y0.
  - by rewrite Z.mul_0_l, !Z.add_0_r.
  - replace (x0 + Z.of_nat (S k) * W) with (x0 + Z.of_nat k * W + W) by lia.
    unfold getAverage at 1. rewrite getAverage_sums_wraps.
    fold (getAverage size W pixels (x0 + Z.of_nat k * W) (y0 + 1)).
    rewrite IH. f_equal. lia.
Qed.

Lemma getAverage_sums_last_row_undefined (size width : Z) (pixels : list byte)
    (x0 y0 : Z) :
  1 <= size ->
  Z.of_nat (length pixels) <= (x0 + width * (y0 + (size - 1))) * 4 ->
  getAverage_sums size width pixels x0 y0 = (NaN, NaN, NaN).
Proof.
  intros Hs Hi. unfold getAverage_sums.
  assert (foldl (getAverage_body width pixels x0) (of_Z 0, of_Z 0, of_Z 0)
                (seqZ y0 size) = (NaN, NaN, NaN)) as First.
  { replace size with ((size - 1) + 1) at 1 by lia.
    rewrite seqZ_app by lia.
    change (seqZ (y0 + (size - 1)) 1) with [y0 + (size - 1)].
    rewrite foldl_snoc. by apply getAverage_body_undefined. }
  rewrite (seqZ_cons x0) by lia. cbn [foldl].
  rewrite First. apply outer_loop_NaN.
Qed.

(** X6: with a buffer of [W * H * 4] bytes, the cubes of the grid whose
    luminance comes out as [NaN] (and get the fallback whatever the frame
    shows) are those of row 0 and the cube [(0, 1)], no other. *)
Theorem grid_cube_luminance_NaN_iff (size W H : Z) (st st2 : State)
    (pixels : list byte) (cube : Cube) :
  1 <= size -> 0 <= W -> 0 <= H ->
  setupCubes (reset size W H st) = Some st2 ->
  cube ∈ cubes st2 ->
  Z.of_nat (length pixels) = W * H * 4 ->
  luminance size (getAverage_sums size W pixels (W - position_x cube * size)
                                                (H - position_y cube * size)) = NaN
  <-> position_y cube = 0 \/ (position_x cube = 0 /\ position_y cube = 1).
Proof.
  intros Hs HW HH E Hin Hl.
  apply (elem_of_setupCubes size W H st st2 cube) in Hin
    as (gx & gy & -> & Hgx & Hgx' & Hgy & Hgy'); try done.
  cbn [position_x position_y new_cube].
  destruct (decide (gy = 0 \/ (gx = 0 /\ gy = 1))) as [Hout|Hin].
  - split; [done|]. intros _.
    destruct Hout as [->|[-> ->]].
    + by rewrite getAverage_sums_first_undefined by (try done; nia).
    + by rewrite getAverage_sums_last_row_undefined by (try done; nia).
  - split; [|done]. intros HNaN. exfalso.
    rewrite getAverage_sums_readable, luminance_of_Z in HNaN; [done|lia|].
    intros x y Hx Hy. unfold readable. rewrite Hl.
    assert (1 <= gy) by lia.
    assert (0 <= y <= H - 1) as Hy' by nia.
    assert (0 <= W * y <= W * (H - 1)) by nia.
    destruct (decide (gx = 0)) as [->|Hgx0].
    + assert (2 <= gy) by lia.
      assert (y <= H - size - 1) by nia.
      assert (W * y <= W * (H - size - 1)) by nia.
      nia.
    + assert (0 <= x <= W - 1) by nia. nia.
Qed.

Lemma grid_cube_luminance_NaN_iff_witness :
  luminance 8 (getAverage_sums 8 16 white_frame (16 - position_x (new_cube 0 1) * 8)
                                                (16 - position_y (new_cube 0 1) * 8))
  = NaN
  <-> position_y (new_cube 0 1) = 0
      \/ (position_x (new_cube 0 1) = 0 /\ position_y (new_cube 0 1) = 1).
Proof.
  apply (grid_cube_luminance_NaN_iff 8 16 16 initial_state example_grid
           white_frame (new_cube 0 1));
    [lia | lia | lia | reflexivity | | reflexivity].
  cbn [cubes example_grid]. right. left.
Defined.

(** X7: a cube of column 0 from row 2 on is not given the fallback: its
    window, one block to the right of the frame, is read as the leftmost
    block of the rows one pixel lower, and the cube shows the luminance
    of that block. *)
Theorem column_zero_samples_left_edge (size W H : Z) (pixels : list byte)
    (cube : Cube) :
  1 <= size -> size <= W ->
  Z.of_nat (length pixels) = W * H * 4 ->
  position_x cube = 0 ->
  2 <= position_y cube ->
  position_y cube * size <= H ->
  let y1 := H - position_y cube * size + 1 in
  getAverage size W pixels (W - position_x cube * size)
                           (H - position_y cube * size)
  = getAverage size W pixels 0 y1 /\
  getAverage size W pixels 0 y1
  = Fin (spec_luminance size (channel_sum size W pixels 0 y1 0)
                             (channel_sum size W pixels 0 y1 1)
                             (channel_sum size W pixels 0 y1 2)).
Proof.
  intros Hs HsW Hl Hx Hy HyH y1. split.
  - rewrite Hx, Z.mul_0_l, Z.sub_0_r. unfold getAverage, y1.
    by rewrite <- (getAverage_sums_wraps size W pixels 0).
  - apply (getAverage_in_frame size W H); try done.
    intros x y Hxr Hyr. unfold in_frame. subst y1. nia.
Qed.

Lemma column_zero_samples_left_edge_witness :
  let y1 := 24 - position_y (new_cube 0 2) * 8 + 1 in
  getAverage 8 24 half_frame (24 - position_x (new_cube 0 2) * 8)
                             (24 - position_y (new_cube 0 2) * 8)
  = getAverage 8 24 half_frame 0 y1 /\
  getAverage 8 24 half_frame 0 y1
  = Fin (spec_luminance 8 (channel_sum 8 24 half_frame 0 y1 0)
                          (channel_sum 8 24 half_frame 0 y1 1)
                          (channel_sum 8 24 half_frame 0 y1 2)).
Proof.
  apply (column_zero_samples_left_edge 8 24 24 half_frame (new_cube 0 2));
    [lia | lia | reflexivity | reflexivity | simpl; lia | simpl; lia].
Defined.

(** ** The order of the cubes *)

Lemma bind_singleton_fmap {A} (g : Z -> A) (ys : list Z) :
  (y ← ys; [g y]) = g <$> ys.
Proof. induction ys as [|y ys IH]; [done|]. rewrite bind_cons, IH. done. Qed.

Lemma lookup_grid {A} (f : Z -> Z -> A) (xs ys : list Z) (i j : nat) :
  (j < length ys)%nat ->
  (x ← xs; y ← ys; [f x y]) !! (i * length ys + j)%nat
  = x ← xs !! i; f x <$> ys !! j.
Proof.
  intros Hj. revert i. induction xs as [|x xs IH]; intros i.
  - by rewrite lookup_nil.
  - rewrite bind_cons, bind_singleton_fmap. destruct i as [|i].
    + rewrite lookup_app_l by (rewrite length_fmap; lia).
      by rewrite list_lookup_fmap.
    + rewrite lookup_app_r by (rewrite length_fmap; lia).
      rewrite length_fmap.
      replace (S i * length ys + j - length ys)%nat with (i * length ys + j)%nat
        by lia.
      apply IH.
Qed.

Lemma NoDup_grid (xs ys : list Z) :
  NoDup xs -> NoDup ys -> NoDup (x ← xs; y ← ys; [new_cube x y]).
Proof.
  intros Hxs Hys. apply NoDup_bind; [| |done].
  - intros x1 x2 c _ _ H1 H2.
    rewrite bind_singleton_fmap in H1, H2.
    apply list_elem_of_fmap in H1 as (y1 & -> & _).
    apply list_elem_of_fmap in H2 as (y2 & E & _).
    by injection E.
  - intros x _. rewrite bind_singleton_fmap.
    apply NoDup_fmap_2_strong; [|done].
    intros y1 y2 _ _ E. by injection E.
Qed.

(** X8: [setupCubes] fills [cubes] column after column: the cube of
    column [x] and row [y] is at the index [x * rows + y], for [rows] the
    number of rows [ceil (H / size)]; no two cubes have the same grid
    coordinates. *)
Theorem setupCubes_order (size W H : Z) (st st2 : State) :
  1 <= size -> 0 <= W -> 0 <= H ->
  setupCubes (reset size W H st) = Some st2 ->
  (forall x y, 0 <= x -> x * size < W -> 0 <= y -> y * size < H ->
     cubes st2 !! Z.to_nat (x * ceil_div H size + y) = Some (new_cube x y)) /\
  NoDup (grid_xy <$> cubes st2).
Proof.
  intros Hs HW HH E.
  destruct (setupCubes_reset size W H st) as (st2' & E' & _ & _ & _ & Hc); try done.
  assert (st2' = st2) as -> by congruence. rewrite Hc. split.
  - intros x y Hx0 Hx Hy0 Hy.
    apply (ceil_div_lt W size x) in Hx; [|lia].
    apply (ceil_div_lt H size y) in Hy; [|lia].
    replace (Z.to_nat (x * ceil_div H size + y))
      with (Z.to_nat x * length (seqZ 0 (ceil_div H size)) + Z.to_nat y)%nat
      by (rewrite length_seqZ; nia).
    rewrite lookup_grid by (rewrite length_seqZ; lia).
    rewrite !lookup_seqZ_lt by lia. cbn. by rewrite !Z2Nat.id by lia.
  - apply NoDup_fmap_2_strong; [|apply NoDup_grid; apply NoDup_seqZ].
    intros c1 c2 H1 H2 Exy.
    apply elem_of_grid in H1 as (x1 & y1 & _ & _ & ->).
    apply elem_of_grid in H2 as (x2 & y2 & _ & _ & ->).
    by injection Exy as -> ->.
Qed.

Lemma setupCubes_order_witness :
  (forall x y, 0 <= x -> x * 8 < 16 -> 0 <= y -> y * 8 < 16 ->
     cubes example_grid !! Z.to_nat (x * ceil_div 16 8 + y) = Some (new_cube x y)) /\
  NoDup (grid_xy <$> cubes example_grid).
Proof.
  apply (setupCubes_order 8 16 16 initial_state example_grid);
    [lia | lia | lia | reflexivity].
Defined.

(** X9: the grid is empty exactly when the frame has no width or no
    height; a frame narrower or lower than a block still gets cubes. *)
Theorem setupCubes_empty_iff (size W H : Z) (st st2 : State) :
  1 <= size -> 0 <= W -> 0 <= H ->
  setupCubes (reset size W H st) = Some st2 ->
  cubes st2 = [] <-> W = 0 \/ H = 0.
Proof.
  intros Hs HW HH E.
  destruct (setupCubes_reset size W H st) as (st2' & E' & _ & _ & _ & Hc); try done.
  assert (st2' = st2) as -> by congruence.
  pose proof (ceil_div_lt W size 0 ltac:(lia)) as HcW.
  pose proof (ceil_div_lt H size 0 ltac:(lia)) as HcH.
  rewrite <- length_zero_iff_nil, Hc, length_grid, !length_seqZ. nia.
Qed.

Lemma setupCubes_empty_iff_witness : cubes example_grid = [] <-> 16 = 0 \/ 16 = 0.
Proof.
  apply (setupCubes_empty_iff 8 16 16 initial_state example_grid);
    [lia | lia | lia | reflexivity].
Defined.

Lemma num_div_by_zero (a : Z) :
  num_div (of_Z a) (of_Z 0) = if decide (a = 0) then NaN else Inf (a <? 0).
Proof.
  unfold num_div, of_Z.
  assert (Qc_eq_bool (qz 0) 0%Qc = true) as -> by reflexivity.
  destruct (decide (a = 0)) as [->|Ha].
  - by assert (Qc_eq_bool (qz 0) 0%Qc = true) as -> by reflexivity.
  - rewrite Qc_eq_bool_neq by by apply qz_neq_0.
    unfold Qc_negative. by rewrite this_qz.
Qed.

(** X10: [setupCubes] fails to end in one case only: [size] is 0 and the
    frame has a width, so that [nrOfCubesX] is [+Infinity] and the outer
    loop never leaves. *)
Theorem setupCubes_never_ends_iff (size W H : Z) (st : State) :
  setupCubes (reset size W H st) = None <-> size = 0 /\ 0 < W.
Proof.
  unfold setupCubes, setupCubes_list, reset.
  cbn [nrOfCubesX nrOfCubesY w h colors cubes ctx].
  destruct (decide (size = 0)) as [->|Hs].
  - rewrite !num_div_by_zero.
    destruct (decide (W = 0)) as [->|HW0]; [split; [done|lia]|].
    destruct (Z.ltb_spec W 0); cbn; (split; [done || lia|]).
    + lia.
    + done.
  - rewrite !num_div_of_Z by done. cbn [count_up].
    split; [|lia]. cbn. by destruct (seqZ 0 _).
Qed.

(** ** The cycles *)










(** ** The table of greys *)

Lemma Fin_integer (q : Qc) : Z.pos (Qden (this q)) = 1 -> Fin q = of_Z (Qnum (this q)).
Proof.
  intros Hd. unfold of_Z. f_equal. apply Qc_is_canon. rewrite this_qz.
  destruct q as [[n d] Hq]. cbn [this Qnum Qden] in *.
  unfold Qeq. cbn [Qnum Qden inject_Z]. rewrite Hd. reflexivity.
Qed.

(** X13: [colors.get] on the table of [setupColors] answers for the
    integers from 0 to 255 and for nothing else ([undefined] for a
    fractional number, for [NaN], for an infinity, for an integer out of
    range), and the colour under [i] is the grey [rgb(i, i, i)]. *)
Theorem colors_get_setupColors_iff (c : number) (col : Color) :
  colors_get setupColors c = Some col <->
  exists i, 0 <= i < 256 /\ c = of_Z i /\ col = rgb i i i.
Proof.
  split.
  - destruct c as [|s|q]; cbn [colors_get]; try done.
    destruct (Z.eqb_spec (Z.pos (Qden (this q))) 1) as [Hd|]; [|done].
    rewrite setupColors_lookup.
    destruct (decide (0 <= Qnum (this q) < 256)) as [Hi|]; [|done].
    intros [= <-]. exists (Qnum (this q)). by rewrite <- Fin_integer.
  - intros (i & Hi & -> & ->).
    rewrite colors_get_of_Z, setupColors_lookup. by rewrite decide_True.
Qed.

(** ** From [setup] through the cycles *)




(** ** The camera *)






(** ** The second script of [index.html] *)

Lemma variant_count_up_quotient (a b : Z) :
  b <> 0 ->
  Variant.count_up_from_1 (num_div (of_Z a) (of_Z b))
  = Some (seqZ 1 (ceil_div a b - 1)).
Proof.
  intros Hb. rewrite num_div_of_Z by done. unfold Variant.count_up_from_1.
  by rewrite Qceiling_quotient.
Qed.

Lemma grid_cons {A} (f : Z -> Z -> A) (x : Z) (xs ys : list Z) :
  (x' ← x :: xs; y ← ys; [f x' y]) = (f x <$> ys) ++ (x' ← xs; y ← ys; [f x' y]).
Proof. by rewrite bind_cons, bind_singleton_fmap. Qed.

(** X16: the [setupCubes] that starts at [x = 1] makes the cubes of the
    [setupCubes] of [sketch.js] less its first column, in the same order:
    the list without its first [ceil (H / size)] cubes, that is, the
    cubes whose [position.x] is not 0. *)
Theorem variant_setupCubes_drops_column_zero (size W H : Z) (st st2 : State) :
  1 <= size -> 0 <= W -> 0 <= H ->
  setupCubes (reset size W H st) = Some st2 ->
  exists v,
    Variant.setupCubes (reset size W H st) = Some v /\
    cubes v = drop (Z.to_nat (ceil_div H size)) (cubes st2) /\
    forall cube, cube ∈ cubes v <-> cube ∈ cubes st2 /\ position_x cube <> 0.
Proof.
  intros Hs HW HH E.
  destruct (setupCubes_reset size W H st) as (st2' & E' & _ & _ & _ & Hc); try done.
  assert (st2' = st2) as -> by congruence.
  pose proof (ceil_div_lt W size 0 ltac:(lia)) as HcW.
  pose proof (ceil_div_lt H size 0 ltac:(lia)) as HcH.
  set (rows := seqZ 0 (ceil_div H size)) in *.
  assert (Variant.setupCubes_list (num_div (of_Z W) (of_Z size))
            (num_div (of_Z H) (of_Z size))
          = Some (x ← seqZ 1 (ceil_div W size - 1); y ← rows; [new_cube x y])) as Ev.
  { unfold Variant.setupCubes_list.
    rewrite variant_count_up_quotient, count_up_quotient by lia. cbn.
    by destruct (seqZ 1 (ceil_div W size - 1)). }
  eexists. split.
  { unfold Variant.setupCubes, reset.
    cbn [nrOfCubesX nrOfCubesY w h colors cubes ctx]. rewrite Ev. cbn. done. }
  cbn [cubes]. rewrite Hc. split.
  - destruct (decide (W = 0)) as [->|HW0].
    + rewrite !seqZ_nil by lia. cbn. by rewrite drop_nil.
    + rewrite (seqZ_cons 0) by lia. rewrite grid_cons.
      rewrite drop_app_length'; [|rewrite length_fmap; unfold rows;
                                   by rewrite length_seqZ].
      by replace (Z.pred (ceil_div W size)) with (ceil_div W size - 1) by lia.
  - intros cube. rewrite !elem_of_grid. setoid_rewrite elem_of_seqZ. split.
    + intros (x & y & Hx & Hy & ->). cbn [position_x new_cube].
      split; [|lia]. exists x, y. split; [lia|done].
    + intros [(x & y & Hx & Hy & ->) Hx0]. cbn [position_x new_cube] in Hx0.
      exists x, y. split; [lia|done].
Qed.

Lemma variant_setupCubes_drops_column_zero_witness :
  exists v,
    Variant.setupCubes (reset 8 16 16 initial_state) = Some v /\
    cubes v = drop (Z.to_nat (ceil_div 16 8)) (cubes example_grid) /\
    forall cube, cube ∈ cubes v <-> cube ∈ cubes example_grid /\ position_x cube <> 0.
Proof.
  apply (variant_setupCubes_drops_column_zero 8 16 16 initial_state example_grid);
    [lia | lia | lia | reflexivity].
Defined.

Lemma variant_pixelate_cube_Fin (size W H : Z) table pixels cube (L : Qc) :
  getAverage size W pixels (position_x cube * size) (H - position_y cube * size)
  = Fin L ->
  Variant.pixelate_cube size W H table pixels cube = sampled table L cube.
Proof.
  intros E. unfold Variant.pixelate_cube. rewrite E. unfold sampled.
  cbn [Math_round]. rewrite colors_get_of_Z.
  rewrite (num_div_Fin L 10) by lia.
  unfold decimal. cbn [num_add].
  rewrite (num_div_Fin _ 2) by lia. reflexivity.
Qed.

(** X17: leaving out column 0 does not cure row 0: in that script too a
    cube with [position.y = 0] reads past the end of a buffer of
    [W * H * 4] bytes, and is given colour index 1, height 0.11 and depth
    0.055 whatever the frame shows. *)
Theorem variant_row_zero_fallback (size W H : Z) (table : gmap Z Color)
    (pixels : list byte) (cube : Cube) :
  1 <= size -> 0 <= W ->
  Z.of_nat (length pixels) = W * H * 4 ->
  0 <= position_x cube ->
  position_y cube = 0 ->
  getAverage_sums size W pixels (position_x cube * size)
                  (H - position_y cube * size) = (NaN, NaN, NaN) /\
  Variant.pixelate_cube size W H table pixels cube =
  {| position_x := position_x cube;
     position_y := position_y cube;
     position_z := decimal 55 1000;
     scale_z := decimal 11 100;
     material_color := table !! 1 |}.
Proof.
  intros Hs HW Hl Hx Hy.
  assert (getAverage_sums size W pixels (position_x cube * size)
            (H - position_y cube * size) = (NaN, NaN, NaN)) as Hsums.
  { apply getAverage_sums_first_undefined; [done|]. rewrite Hl, Hy. nia. }
  split; [exact Hsums|].
  rewrite (variant_pixelate_cube_Fin _ _ _ _ _ _ (qz 1)).
  - apply sampled_one.
  - unfold getAverage. by rewrite Hsums.
Qed.

Lemma variant_row_zero_fallback_witness :
  getAverage_sums 8 16 white_frame (position_x (new_cube 1 0) * 8)
                  (16 - position_y (new_cube 1 0) * 8) = (NaN, NaN, NaN) /\
  Variant.pixelate_cube 8 16 16 setupColors white_frame (new_cube 1 0) =
  {| position_x := position_x (new_cube 1 0);
     position_y := position_y (new_cube 1 0);
     position_z := decimal 55 1000;
     scale_z := decimal 11 100;
     material_color := setupColors !! 1 |}.
Proof.
  apply (variant_row_zero_fallback 8 16 16 setupColors white_frame (new_cube 1 0));
    [lia | lia | reflexivity | simpl; lia | reflexivity].
Defined.


